(** * RageCoin: the ledger core, embedded from the Python sources

    The development follows the layout of the repository: one module per
    source file ([transaction], [block], [blockchain], [node]), preceded by
    the handful of Python primitives the code leans on ([py]) and by the
    wire shapes of the dictionaries it exchanges.

    Conventions.
    - Python [int] is [Z]; Python [float] amounts and timestamps are exact
      rationals [Q] (the arithmetic of the ledger is only [+], [-] and [<]).
    - [hashlib], [json] and [ecdsa] are outside the repository: they are
      the fields of the class [Externals], and every statement below holds
      for all of them.
    - A [while] loop with no bound takes a fuel argument; running out of it
      is the outcome [OutOfFuel], never a result.
    - A method that assigns to [self] returns the new object next to its
      outcome. Of the lines printed, those of [is_chain_valid] are kept.

    The model comes first, then a concrete instance of the external
    libraries with sample data, the vocabulary of the statements, the
    statements with their proofs, and the statements at work on the
    sample data. *)

From Stdlib Require Import List String Ascii ZArith QArith Qabs Bool Lia Lqa.
From Stdlib Require Import DecimalString.
Import ListNotations.

Close Scope Q_scope.

(* ================================================================== *)
(** ** Python primitives *)
(* ================================================================== *)

Module py.

(** The only exception the modelled code can raise by itself. *)
Inductive exception := IndexError.

(** Outcome of a call: a value, an exception, or a loop still running
    when the fuel ran out. *)
Inductive result (A : Type) : Type :=
| Return (a : A)
| Raise (e : exception)
| OutOfFuel.
Arguments Return {A} a.
Arguments Raise {A} e.
Arguments OutOfFuel {A}.

Definition bind {A B} (m : result A) (k : A -> result B) : result B :=
  match m with
  | Return a => k a
  | Raise e => Raise e
  | OutOfFuel => OutOfFuel
  end.

(** [not s] for a [str]: the empty string is the only falsy one. *)
Definition falsy (s : string) : bool :=
  match s with EmptyString => true | String _ _ => false end.

(** [s * n]: repetition; a count [n <= 0] gives the empty string. *)
Definition str_mul (s : string) (n : Z) : string :=
  Nat.iter (Z.to_nat n) (String.append s) EmptyString.

Fixpoint take (n : nat) (s : string) : string :=
  match n, s with
  | S n', String c s' => String c (take n' s')
  | _, _ => EmptyString
  end.

(** [s[:stop]]: a negative [stop] counts from the end. *)
Definition slice_to (s : string) (stop : Z) : string :=
  if (stop <? 0)%Z
  then take (Z.to_nat (Z.of_nat (String.length s) + stop)) s
  else take (Z.to_nat stop) s.

(** [s.startswith(p)]. *)
Definition startswith (s p : string) : bool := String.prefix p s.

(** [l[-1]]. *)
Definition last_item {A} (l : list A) : result A :=
  match rev l with
  | [] => Raise IndexError
  | x :: _ => Return x
  end.

(** [l[i]] for an index [i >= 0]. *)
Definition getitem {A} (l : list A) (i : nat) : result A :=
  match nth_error l i with
  | Some x => Return x
  | None => Raise IndexError
  end.

(** [range(a, b)]. *)
Definition range (a b : nat) : list nat := seq a (b - a).

(** [str(i)] for a natural number, as an f-string prints it. *)
Definition str_of_nat (i : nat) : string :=
  NilZero.string_of_uint (Nat.to_uint i).

(** [a < b] on amounts. *)
Definition ltb (a b : Q) : bool :=
  match (a ?= b)%Q with Lt => true | _ => false end.

End py.

Import py.

Declare Scope py_scope.
Delimit Scope py_scope with py.
Notation "x <- m ;; k" := (py.bind m (fun x => k))
  (at level 61, m at next level, right associativity) : py_scope.
Open Scope py_scope.

(** Number of ['0'] characters a string starts with. *)
Fixpoint leading_zeros (s : string) : nat :=
  match s with
  | String c s' => if (c =? "0")%char then S (leading_zeros s') else 0
  | EmptyString => 0
  end.

(* ================================================================== *)
(** ** Wire shapes (the dictionaries of [to_dict] / [from_dict]) *)
(* ================================================================== *)

(** [{"sender", "recipient", "amount", "signature"}]; a missing or [null]
    signature is [None] (the code reads it with [.get]). *)
Record tx_dict := mk_tx_dict {
  d_sender : string;
  d_recipient : string;
  d_amount : Q;
  d_signature : option string
}.

Record block_dict := mk_block_dict {
  d_index : Z;
  d_transactions : list tx_dict;
  d_timestamp : Q;
  d_previous_hash : string;
  d_nonce : Z;
  d_hash : string
}.

Record blockchain_dict := mk_blockchain_dict {
  d_chain : list block_dict;
  d_difficulty : Z;
  d_mining_reward : Q;
  d_pending_transactions : list tx_dict
}.

(* ================================================================== *)
(** ** External libraries *)
(* ================================================================== *)

(** What [vk.verify] inside the [try] of [Transaction.is_valid] can do,
    decoding of the two hex strings included. *)
Inductive verify_outcome := Verified | BadSignatureError | OtherException.

Class Externals := {
  (** [hashlib.sha256(s.encode()).hexdigest()] *)
  sha256_hexdigest : string -> string;
  (** [json.dumps({"sender":…, "recipient":…, "amount":…}, sort_keys=True)] *)
  json_dumps_transaction : string -> string -> Q -> string;
  (** [json.dumps] of the five hashed block fields, keys sorted *)
  json_dumps_block : Z -> list tx_dict -> Q -> string -> Z -> string;
  (** [VerifyingKey.from_string(bytes.fromhex(sender)).verify(bytes.fromhex(sig), msg)] *)
  ecdsa_verify : string -> string -> string -> verify_outcome;
  (** a SHA-256 digest in hexadecimal has 64 characters *)
  sha256_hexdigest_length : forall s, String.length (sha256_hexdigest s) = 64
}.

(* ================================================================== *)
(** ** transaction.py *)
(* ================================================================== *)

Module transaction.

Record Transaction := mkTransaction {
  sender : string;
  recipient : string;
  amount : Q;
  signature : option string
}.

Definition COINBASE : string := "COINBASE".

Section methods.
Context `{Externals}.

Definition calculate_hash (self : Transaction) : string :=
  sha256_hexdigest
    (json_dumps_transaction (sender self) (recipient self) (amount self)).

Definition is_valid (self : Transaction) : bool :=
  if (sender self =? COINBASE)%string then true
  else
    match signature self with
    | None => false
    | Some sig =>
        if falsy sig then false
        else
          match ecdsa_verify (sender self) sig (calculate_hash self) with
          | Verified => true
          | BadSignatureError => false
          | OtherException => false
          end
    end.
End methods.

Definition to_dict (self : Transaction) : tx_dict :=
  {| d_sender := sender self;
     d_recipient := recipient self;
     d_amount := amount self;
     d_signature := signature self |}.

Definition from_dict (d : tx_dict) : Transaction :=
  mkTransaction (d_sender d) (d_recipient d) (d_amount d) (d_signature d).

End transaction.

(* ================================================================== *)
(** ** block.py *)
(* ================================================================== *)

Module block.

Record Block := mkBlock {
  index : Z;
  transactions : list tx_dict;
  timestamp : Q;
  previous_hash : string;
  nonce : Z;
  hash : string
}.

Definition set_hash (self : Block) (h : string) : Block :=
  mkBlock (index self) (transactions self) (timestamp self)
          (previous_hash self) (nonce self) h.

Definition set_nonce (self : Block) (n : Z) : Block :=
  mkBlock (index self) (transactions self) (timestamp self)
          (previous_hash self) n (hash self).

Section methods.
Context `{Externals}.

Definition calculate_hash (self : Block) : string :=
  sha256_hexdigest
    (json_dumps_block (index self) (transactions self) (timestamp self)
                      (previous_hash self) (nonce self)).

(** [Block(index, transactions, timestamp, previous_hash, nonce)] *)
Definition init (index : Z) (transactions : list tx_dict) (timestamp : Q)
           (previous_hash : string) (nonce : Z) : Block :=
  let self := mkBlock index transactions timestamp previous_hash nonce EmptyString in
  set_hash self (calculate_hash self).

(** The guard of the mining loop, negated: [self.hash[:difficulty] == target]. *)
Definition mined (difficulty : Z) (self : Block) : bool :=
  let target := str_mul "0" difficulty in
  (slice_to (hash self) difficulty =? target)%string.

(** One turn of the loop body. *)
Definition mine_step (self : Block) : Block :=
  let self := set_nonce self (nonce self + 1)%Z in
  set_hash self (calculate_hash self).

Fixpoint mine_block (fuel : nat) (difficulty : Z) (self : Block) : result Block :=
  if mined difficulty self then Return self
  else
    match fuel with
    | O => OutOfFuel
    | S fuel' => mine_block fuel' difficulty (mine_step self)
    end.

Definition from_dict (d : block_dict) : Block :=
  let block := init (d_index d) (d_transactions d) (d_timestamp d)
                    (d_previous_hash d) (d_nonce d) in
  set_hash block (d_hash d).
End methods.

Definition to_dict (self : Block) : block_dict :=
  {| d_index := index self;
     d_transactions := transactions self;
     d_timestamp := timestamp self;
     d_previous_hash := previous_hash self;
     d_nonce := nonce self;
     d_hash := hash self |}.

End block.

(* ================================================================== *)
(** ** blockchain.py *)
(* ================================================================== *)

Module blockchain.
Import transaction block.

Record Blockchain := mkBlockchain {
  chain : list Block;
  difficulty : Z;
  pending_transactions : list Transaction;
  mining_reward : Q
}.

Definition set_chain (self : Blockchain) (c : list Block) : Blockchain :=
  mkBlockchain c (difficulty self) (pending_transactions self) (mining_reward self).

Definition set_pending_transactions (self : Blockchain) (p : list Transaction)
  : Blockchain :=
  mkBlockchain (chain self) (difficulty self) p (mining_reward self).

(** The four lines [is_chain_valid] can print. *)
Definition invalid_hash_msg (i : nat) : string :=
  "Block " ++ str_of_nat i ++ " has invalid hash!".
Definition invalid_previous_hash_msg (i : nat) : string :=
  "Block " ++ str_of_nat i ++ " has invalid previous hash!".
Definition invalid_proof_of_work_msg (i : nat) : string :=
  "Block " ++ str_of_nat i ++ " has invalid proof of work!".
Definition invalid_transaction_msg (i : nat) : string :=
  "Block " ++ str_of_nat i ++ " contains invalid transaction!".

(** One step of the two balance loops: debit, then credit. *)
Definition balance_step (address sender recipient : string) (amount : Q)
           (balance : Q) : Q :=
  let balance := if (sender =? address)%string then (balance - amount)%Q else balance in
  let balance := if (recipient =? address)%string then (balance + amount)%Q else balance in
  balance.

Definition get_balance (self : Blockchain) (address : string) : Q :=
  let balance := 0%Q in
  let balance :=
    fold_left
      (fun balance block =>
         fold_left
           (fun balance tx =>
              balance_step address (d_sender tx) (d_recipient tx) (d_amount tx) balance)
           (transactions block) balance)
      (chain self) balance in
  let balance :=
    fold_left
      (fun balance tx =>
         balance_step address (sender tx) (recipient tx) (amount tx) balance)
      (pending_transactions self) balance in
  balance.

Definition get_latest_block (self : Blockchain) : result Block :=
  last_item (chain self).

Section methods.
Context `{Externals}.

(** [now] is the reading of [time.time()]. *)
Definition create_genesis_block (fuel : nat) (now : Q) (self : Blockchain)
  : result Blockchain :=
  let genesis_block := block.init 0 [] now "0" 0 in
  genesis_block <- mine_block fuel (difficulty self) genesis_block ;;
  Return (set_chain self (chain self ++ [genesis_block])).

(** [Blockchain(difficulty, mining_reward)] *)
Definition init (fuel : nat) (now : Q) (difficulty : Z) (mining_reward : Q)
  : result Blockchain :=
  let self := mkBlockchain [] difficulty [] mining_reward in
  create_genesis_block fuel now self.

(** [Blockchain()] *)
Definition init_default (fuel : nat) (now : Q) : result Blockchain :=
  init fuel now 4 50.

(** The state is returned next to the outcome, because the reward is
    already in the pool when the lookup of the last block or the
    mining loop is reached. The value returned is Python's [None],
    written as the [None] of [option Block]. *)
Definition mine_pending_transactions (fuel : nat) (now : Q)
           (mining_reward_address : string) (self : Blockchain)
  : result (option Block) * Blockchain :=
  let reward_tx :=
    mkTransaction COINBASE mining_reward_address (mining_reward self) None in
  let self := set_pending_transactions self (reward_tx :: pending_transactions self) in
  match get_latest_block self with
  | Raise e => (Raise e, self)
  | OutOfFuel => (OutOfFuel, self)
  | Return latest =>
      let block :=
        block.init (Z.of_nat (List.length (chain self)))
                   (map transaction.to_dict (pending_transactions self))
                   now (hash latest) 0 in
      match mine_block fuel (difficulty self) block with
      | Raise e => (Raise e, self)
      | OutOfFuel => (OutOfFuel, self)
      | Return block =>
          let self := set_chain self (chain self ++ [block]) in
          let self := set_pending_transactions self [] in
          (Return None, self)
      end
  end.

Definition add_transaction (transaction : Transaction) (self : Blockchain)
  : bool * Blockchain :=
  if falsy (sender transaction) || falsy (recipient transaction) then (false, self)
  else if negb (is_valid transaction) then (false, self)
  else if negb (sender transaction =? COINBASE)%string
            && ltb (get_balance self (sender transaction)) (amount transaction)
  then (false, self)
  else
    (true,
     set_pending_transactions self (pending_transactions self ++ [transaction])).

(** The body of the [for i in range(1, len(self.chain))] loop: [None]
    when the four checks pass, the printed line otherwise. *)
Definition check_block (difficulty : Z) (i : nat)
           (current_block previous_block : Block) : option string :=
  if negb (hash current_block =? block.calculate_hash current_block)%string
  then Some (invalid_hash_msg i)
  else if negb (previous_hash current_block =? hash previous_block)%string
  then Some (invalid_previous_hash_msg i)
  else if negb (startswith (hash current_block) (str_mul "0" difficulty))
  then Some (invalid_proof_of_work_msg i)
  else if negb (forallb (fun tx_dict => is_valid (transaction.from_dict tx_dict))
                        (transactions current_block))
  then Some (invalid_transaction_msg i)
  else None.

(** The loop over the indices still to visit; the result is the value
    returned with the lines printed on the way. *)
Fixpoint is_chain_valid_loop (self : Blockchain) (indices : list nat)
  : result (bool * list string) :=
  match indices with
  | [] => Return (true, [])
  | i :: indices' =>
      current_block <- getitem (chain self) i ;;
      previous_block <- getitem (chain self) (i - 1) ;;
      match check_block (difficulty self) i current_block previous_block with
      | Some line => Return (false, [line])
      | None => is_chain_valid_loop self indices'
      end
  end.

Definition is_chain_valid_io (self : Blockchain) : result (bool * list string) :=
  is_chain_valid_loop self (range 1 (List.length (chain self))).

Definition is_chain_valid (self : Blockchain) : result bool :=
  r <- is_chain_valid_io self ;; Return (fst r).

(** [load_from_file] after [json.load]: [data] is the parsed file. *)
Definition load_from_file (fuel : nat) (now : Q) (data : blockchain_dict)
  : result Blockchain :=
  blockchain <- init fuel now (d_difficulty data) (d_mining_reward data) ;;
  let blockchain := set_chain blockchain (map block.from_dict (d_chain data)) in
  let blockchain :=
    set_pending_transactions blockchain
      (map transaction.from_dict (d_pending_transactions data)) in
  Return blockchain.
End methods.

Definition to_dict (self : Blockchain) : blockchain_dict :=
  {| d_chain := map block.to_dict (chain self);
     d_difficulty := difficulty self;
     d_mining_reward := mining_reward self;
     d_pending_transactions := map transaction.to_dict (pending_transactions self) |}.

End blockchain.

(* ================================================================== *)
(** ** node.py *)
(* ================================================================== *)

Module node.
Import transaction block blockchain.

(** [requests.get(f'{peer}/chain', timeout=2)]: the call raises a
    [RequestException], or answers with a status code and a body. *)
Inductive Response :=
| RequestException
| HttpResponse (status_code : Z) (json : blockchain_dict).

(** What the outside supplies while one peer is visited: the answer to
    the request, and the reading of [time.time()] seen by the scratch
    ledger's constructor if one is built. *)
Record Exchange := mkExchange {
  response : Response;
  clock : Q
}.

(** [peers] is the set in the order the [for] loop walks it. *)
Record Node := mkNode {
  port : Z;
  blockchain : Blockchain;
  peers : list string
}.

Definition set_blockchain (self : Node) (b : Blockchain) : Node :=
  mkNode (port self) b (peers self).

Section methods.
Context `{Externals}.

(** One turn of [for peer in self.peers], on the two loop variables. *)
Definition visit_peer (fuel : nat) (x : Exchange)
           (st : option (list Block) * nat)
  : result (option (list Block) * nat) :=
  let '(new_chain, max_length) := st in
  match response x with
  | RequestException => Return (new_chain, max_length)
  | HttpResponse status_code data =>
      if (status_code =? 200)%Z then
        let length := List.length (d_chain data) in
        let chain := map block.from_dict (d_chain data) in
        if (max_length <? length)%nat then
          temp_blockchain <- init_default fuel (clock x) ;;
          let temp_blockchain := set_chain temp_blockchain chain in
          valid <- is_chain_valid temp_blockchain ;;
          if (valid : bool) then Return (Some chain, length)
          else Return (new_chain, max_length)
        else Return (new_chain, max_length)
      else Return (new_chain, max_length)
  end.

Fixpoint visit_peers (fuel : nat) (network : string -> Exchange)
         (peers : list string) (st : option (list Block) * nat)
  : result (option (list Block) * nat) :=
  match peers with
  | [] => Return st
  | peer :: peers' =>
      st' <- visit_peer fuel (network peer) st ;;
      visit_peers fuel network peers' st'
  end.

(** As in [mine_pending_transactions], the node is returned next to
    the outcome: it is assigned to after the loop only. *)
Definition resolve_conflicts (fuel : nat) (network : string -> Exchange)
           (self : Node) : result bool * Node :=
  let new_chain : option (list Block) := None in
  let max_length := List.length (chain (blockchain self)) in
  match visit_peers fuel network (peers self) (new_chain, max_length) with
  | Raise e => (Raise e, self)
  | OutOfFuel => (OutOfFuel, self)
  | Return (new_chain, _) =>
      match new_chain with
      | Some (b :: c) =>
          (* [if new_chain:] holds for a list that is not empty *)
          (Return true, set_blockchain self (set_chain (blockchain self) (b :: c)))
      | Some [] | None => (Return false, self)
      end
  end.
End methods.

End node.

(* ================================================================== *)
(** ** Signing: [Transaction.sign_transaction], wallet.py *)
(* ================================================================== *)

Module wallet.
Import transaction.

(** The signing half of [ecdsa]. [sk.sign] draws a fresh nonce at each
    call: the draw is the argument [entropy]. *)
Class Keys := {
  (** [SigningKey.from_string(bytes.fromhex(private_key), curve=SECP256k1)
      .sign(message.encode()).hex()]; [None] when the library raises
      on the private key *)
  ecdsa_sign : string -> string -> nat -> option string;
  (** [SigningKey.from_string(bytes.fromhex(private_key), curve=SECP256k1)
      .get_verifying_key().to_string().hex()], the address of
      [Wallet(private_key)]; [None] when the library raises *)
  verifying_key_hex : string -> option string
}.

Definition set_signature (self : Transaction) (sig : option string) : Transaction :=
  mkTransaction (sender self) (recipient self) (amount self) sig.

Section methods.
Context `{Externals} `{Keys}.

(** [None] stands for the exception of the library going through. *)
Definition sign_transaction (private_key : string) (entropy : nat)
           (self : Transaction) : option Transaction :=
  if (sender self =? COINBASE)%string then Some self
  else
    let tx_hash := transaction.calculate_hash self in
    match ecdsa_sign private_key tx_hash entropy with
    | None => None
    | Some signature => Some (set_signature self (Some signature))
    end.

(** [Wallet(private_key).get_address()] *)
Definition get_address (private_key : string) : option string :=
  verifying_key_hex private_key.

(** The transaction [send_transaction] of ragecoin.py builds from a
    wallet before it prints or posts it. *)
Definition send_transaction (private_key recipient : string) (amount : Q)
           (entropy : nat) : option Transaction :=
  match get_address private_key with
  | None => None
  | Some address =>
      let tx := mkTransaction address recipient amount None in
      sign_transaction private_key entropy tx
  end.
End methods.

End wallet.

(* ================================================================== *)
(** ** The routes of node.py that change or read the ledger *)
(* ================================================================== *)

Module api.
Import transaction block blockchain node.

(** The body of [POST /transactions/new]: a key that is absent is
    [None]; the signature may be present and [null]. *)
Record TransactionRequest := mkTransactionRequest {
  rq_sender : option string;
  rq_recipient : option string;
  rq_amount : option Q;
  rq_signature : option (option string)
}.

(** What a handler returns: the status code and what it puts in the
    body. *)
Inductive Reply :=
| Message (status_code : Z) (message : string)
| MinedBlock (status_code : Z) (message : string) (block : block_dict)
| ChainReply (status_code : Z) (message : string) (chain : blockchain_dict).

Definition status_of (r : Reply) : Z :=
  match r with
  | Message s _ | MinedBlock s _ _ | ChainReply s _ _ => s
  end.

(** [broadcast_transaction]: one post per peer, failures ignored; the
    posts are what leaves the node. *)
Definition broadcast_transaction (transaction : Transaction) (self : Node)
  : list (string * tx_dict) :=
  map (fun peer => ((peer ++ "/transactions/new")%string, transaction.to_dict transaction))
      (peers self).

Section methods.
Context `{Externals}.

(** [POST /transactions/new]: the reply, the node and the posts sent. *)
Definition new_transaction (data : TransactionRequest) (self : Node)
  : Reply * Node * list (string * tx_dict) :=
  match rq_sender data, rq_recipient data, rq_amount data, rq_signature data with
  | Some sender, Some recipient, Some amount, Some signature =>
      let tx := mkTransaction sender recipient amount signature in
      let '(admitted, ledger) := add_transaction tx (blockchain self) in
      let self := set_blockchain self ledger in
      if admitted then
        (Message 201 "Transaction added to pending pool", self,
         broadcast_transaction tx self)
      else (Message 400 "Invalid transaction", self, [])
  | _, _, _, _ => (Message 400 "Missing transaction data", self, [])
  end.

(** [POST /mine]: [miner_address] is [data.get('miner_address')]. *)
Definition mine (fuel : nat) (now : Q) (miner_address : option string) (self : Node)
  : result Reply * Node :=
  match miner_address with
  | None => (Return (Message 400 "Miner address required"), self)
  | Some address =>
      if falsy address then (Return (Message 400 "Miner address required"), self)
      else
        let '(outcome, ledger) :=
          mine_pending_transactions fuel now address (blockchain self) in
        let self := set_blockchain self ledger in
        match outcome with
        | Raise e => (Raise e, self)
        | OutOfFuel => (OutOfFuel, self)
        | Return _ =>
            match get_latest_block (blockchain self) with
            | Raise e => (Raise e, self)
            | OutOfFuel => (OutOfFuel, self)
            | Return latest =>
                (Return (MinedBlock 200 "Block mined successfully" (block.to_dict latest)),
                 self)
            end
        end
  end.

(** [GET /consensus] *)
Definition consensus (fuel : nat) (network : string -> Exchange) (self : Node)
  : result Reply * Node :=
  let '(outcome, self) := resolve_conflicts fuel network self in
  match outcome with
  | Raise e => (Raise e, self)
  | OutOfFuel => (OutOfFuel, self)
  | Return replaced =>
      if (replaced : bool) then
        (Return (ChainReply 200 "Chain was replaced" (blockchain.to_dict (blockchain self))),
         self)
      else
        (Return (ChainReply 200 "Chain is authoritative"
                            (blockchain.to_dict (blockchain self))),
         self)
  end.
End methods.

(** The body a wallet posts for a transaction: [tx.to_dict()]. *)
Definition request_of (d : tx_dict) : TransactionRequest :=
  mkTransactionRequest (Some (d_sender d)) (Some (d_recipient d))
                       (Some (d_amount d)) (Some (d_signature d)).

End api.

(* ================================================================== *)
(** ** A concrete instance of the external libraries

    A stand-in for [hashlib], [json] and [ecdsa] on which the model can be
    run: a checksum padded to 64 characters plays the digest, and a
    signature is valid when it spells out the sender and the message. *)
(* ================================================================== *)

Module demo.
Import transaction block blockchain node.

Fixpoint checksum (s : string) : nat :=
  match s with
  | EmptyString => 0
  | String c s' => nat_of_ascii c + checksum s'
  end.

(** The first [n] characters of [s], filled up with ['f']. *)
Fixpoint pad (n : nat) (s : string) : string :=
  match n with
  | O => EmptyString
  | S n' =>
      match s with
      | EmptyString => String "f" (pad n' EmptyString)
      | String c s' => String c (pad n' s')
      end
  end.

Definition digest (s : string) : string :=
  let n := checksum s in
  pad 64 ((if (n mod 4 =? 0)%nat then "0000" else "9") ++ str_of_nat n).

Definition show_Z (z : Z) : string := NilZero.string_of_int (Z.to_int z).

Definition show_Q (q : Q) : string :=
  show_Z (Qnum q) ++ "/" ++ show_Z (Zpos (Qden q)).

Definition dumps_transaction (sender recipient : string) (amount : Q) : string :=
  sender ++ ">" ++ recipient ++ ":" ++ show_Q amount.

Definition dumps_tx_dict (d : tx_dict) : string :=
  dumps_transaction (d_sender d) (d_recipient d) (d_amount d)
    ++ match d_signature d with Some s => "!" ++ s | None => "" end.

Definition dumps_block (index : Z) (transactions : list tx_dict) (timestamp : Q)
           (previous_hash : string) (nonce : Z) : string :=
  show_Z index ++ "[" ++ String.concat ";" (map dumps_tx_dict transactions) ++ "]"
    ++ show_Q timestamp ++ "^" ++ previous_hash ++ "#" ++ show_Z nonce.

Definition sign (sender message : string) : string :=
  "sig:" ++ sender ++ ":" ++ message.

(** A sender starting with ['z'] is not hexadecimal: decoding fails. *)
Definition verify (sender sig message : string) : verify_outcome :=
  if String.prefix "z" sender then OtherException
  else if (sig =? sign sender message)%string then Verified
  else BadSignatureError.

Lemma pad_length (n : nat) (s : string) : String.length (pad n s) = n.
Proof.
  revert s; induction n as [|n IH]; intros s; simpl; [reflexivity|].
  destruct s; simpl; now rewrite IH.
Qed.

Definition externals : Externals :=
  {| sha256_hexdigest := digest;
     json_dumps_transaction := dumps_transaction;
     json_dumps_block := dumps_block;
     ecdsa_verify := verify;
     sha256_hexdigest_length := fun s => pad_length 64 _ |}.

(** A transaction signed by its sender. *)
Definition signed (sender recipient : string) (amount : Q) : Transaction :=
  let tx := mkTransaction sender recipient amount None in
  mkTransaction sender recipient amount
    (Some (sign sender (@transaction.calculate_hash externals tx))).

(** *** Sample ledgers, built by running the model *)

Definition or_empty (r : result Blockchain) : Blockchain :=
  match r with
  | Return self => self
  | _ => mkBlockchain [] 4 [] 50
  end.

(** [Blockchain()] at clock reading 1. *)
Definition ledger1 : Blockchain :=
  Eval vm_compute in or_empty (@blockchain.init externals 10 1 4 50).

(** [n] more blocks, mined one after the other for the address ["a1"]. *)
Fixpoint grow (n : nat) (now : Q) (self : Blockchain) : Blockchain :=
  match n with
  | O => self
  | S n' =>
      grow n' (now + 1)%Q
           (snd (@mine_pending_transactions externals 10 now "a1" self))
  end.

Definition ledger2 : Blockchain := Eval vm_compute in grow 1 2 ledger1.
Definition ledger3 : Blockchain := Eval vm_compute in grow 2 2 ledger1.
Definition ledger4 : Blockchain := Eval vm_compute in grow 3 2 ledger1.
Definition ledger5 : Blockchain := Eval vm_compute in grow 4 2 ledger1.

(** Every amount of a block rewritten, the stored hash left alone. *)
Definition rewrite_amounts (b : Block) : Block :=
  mkBlock (index b)
          (map (fun d => mk_tx_dict (d_sender d) (d_recipient d) 1000 (d_signature d))
               (transactions b))
          (timestamp b) (previous_hash b) (nonce b) (hash b).

(** The ledger with block [i] tampered with. *)
Definition tamper (i : nat) (self : Blockchain) : Blockchain :=
  set_chain self
    (firstn i (chain self)
       ++ map rewrite_amounts (firstn 1 (skipn i (chain self)))
       ++ skipn (S i) (chain self)).

Definition tampered3 : Blockchain := Eval vm_compute in tamper 1 ledger3.
Definition tampered5 : Blockchain := Eval vm_compute in tamper 2 ledger5.

(** *** A node and four peers *)

Definition serve (status_code : Z) (self : Blockchain) (now : Q) : Exchange :=
  mkExchange (HttpResponse status_code (blockchain.to_dict self)) now.

Definition network (peer : string) : Exchange :=
  if (peer =? "http://p1")%string then serve 200 ledger2 10
  else if (peer =? "http://p2")%string then serve 200 ledger4 11
  else if (peer =? "http://p3")%string then serve 200 tampered5 12
  else if (peer =? "http://p4")%string then serve 500 ledger5 13
  else mkExchange RequestException 14.

Definition node3 : Node :=
  mkNode 5000 ledger3
         (map (String.append "http://") ["p1"; "p2"; "p3"; "p4"; "p5"]%string).

(** *** Sample transactions and blocks *)

Section samples.
Existing Instance externals.

(** A block fresh from its constructor, and the block the mining loop
    stops on at difficulty 4. *)
Definition fresh_block : Block := Eval vm_compute in block.init 1 [] 17 "0" 0.

Definition mined_block : Block :=
  Eval vm_compute in
    match mine_block 10 4 fresh_block with
    | Return b => b
    | _ => fresh_block
    end.

(** A block 0 with nothing right in it but the stored hash of the block
    0 of [ledger1]. *)
Definition forged_genesis : Block :=
  mkBlock 99 [mk_tx_dict "zz" "zz" (-1) None] 0 "nonsense" 7
          "0000604fffffffffffffffffffffffffffffffffffffffffffffffffffffffff".

(** A reward of a million with a signature that is none, an unsigned
    transfer, and a transfer whose sender is not hexadecimal. *)
Definition minted : Transaction :=
  mkTransaction COINBASE "a1" 1000000 (Some "not a signature"%string).
Definition unsigned : Transaction := mkTransaction "a1" "b2" 5 None.
Definition undecodable : Transaction :=
  mkTransaction "zz" "b2" 5 (Some "00"%string).

(** Signed transfers of 60 by ["a1"], who owns 100 in [ledger3]: to
    ["b2"], to ["c3"] and to ["a1"] itself. *)
Definition first_spend : Transaction := Eval vm_compute in signed "a1" "b2" 60.
Definition second_spend : Transaction := Eval vm_compute in signed "a1" "c3" 60.
Definition self_spend : Transaction := Eval vm_compute in signed "a1" "a1" 60.

(** Signed transfers of -5 by ["b2"], who owns nothing in [ledger3]: to
    ["a1"] and to ["b2"] itself. *)
Definition negative_spend : Transaction := Eval vm_compute in signed "b2" "a1" (-5).
Definition negative_self_spend : Transaction :=
  Eval vm_compute in signed "b2" "b2" (-5).

(** [ledger3] with one transfer in its pool, its last block, the ledger
    after mining for ["m1"] at clock reading 9, and the block mined. *)
Definition pooled : Blockchain :=
  Eval vm_compute in set_pending_transactions ledger3 [first_spend].

Definition last_of_pooled : Block :=
  Eval vm_compute in nth 2 (chain pooled) fresh_block.

Definition pooled_mined : Blockchain :=
  Eval vm_compute in snd (mine_pending_transactions 10 9 "m1" pooled).

Definition new_block : Block :=
  Eval vm_compute in nth 3 (chain pooled_mined) fresh_block.

(** [tampered3] with one transfer in its pool, and its tampered block. *)
Definition tampered_pooled : Blockchain :=
  Eval vm_compute in set_pending_transactions tampered3 [first_spend].

Definition tampered_block : Block :=
  Eval vm_compute in nth 1 (chain tampered_pooled) fresh_block.

End samples.

(** *** A stand-in for the signing half of [ecdsa]

    A private key is ["k:"] followed by its public key; a public key
    that starts with ['z'] is refused, as [verify] refuses it. *)

Definition public_of (private_key : string) : option string :=
  if String.prefix "k:" private_key then
    let address := String.substring 2 (String.length private_key - 2) private_key in
    if String.prefix "z" address then None else Some address
  else None.

Definition sign_with (private_key message : string) (entropy : nat) : option string :=
  match public_of private_key with
  | Some address => Some (sign address message)
  | None => None
  end.

Definition keys : wallet.Keys :=
  {| wallet.ecdsa_sign := sign_with;
     wallet.verifying_key_hex := public_of |}.

Lemma keys_sign_verify (sk m : string) (e : nat) (sig pk : string) :
  sign_with sk m e = Some sig ->
  public_of sk = Some pk ->
  sig <> EmptyString /\ verify pk sig m = Verified.
Proof.
  unfold sign_with. intros Hsig Hpk. rewrite Hpk in Hsig. injection Hsig as <-.
  split; [discriminate|]. unfold verify.
  assert (Hz : String.prefix "z" pk = false).
  { unfold public_of in Hpk. destruct (String.prefix "k:" sk); [|discriminate].
    destruct (String.prefix "z" _) eqn:Hz; [discriminate|]. now injection Hpk as <-. }
  now rewrite Hz, String.eqb_refl.
Qed.

(** *** More samples *)

Section more_samples.
Existing Instance externals.

(** A signed transfer of 30 by ["a1"] to ["b2"]. *)
Definition small_spend : Transaction := Eval vm_compute in signed "a1" "b2" 30.

(** [node3] with its peers in the opposite order. *)
Definition node3_reversed : Node :=
  mkNode (port node3) (blockchain node3) (rev (peers node3)).

(** A file with an empty chain and one pool entry. *)
Definition empty_chain_file : blockchain_dict :=
  mk_blockchain_dict [] 4 50 [transaction.to_dict first_spend].

Definition empty_chain_ledger : Blockchain :=
  mkBlockchain [] 4 [first_spend] 50.

End more_samples.

End demo.

(* ================================================================== *)
(** * Vocabulary of the statements *)
(* ================================================================== *)

Section vocabulary.
Context `{Externals}.
Import transaction block blockchain node.

Fixpoint zeros (n : nat) : string :=
  match n with
  | O => EmptyString
  | S n' => String "0" (zeros n')
  end.

(** The block [Block(index, transactions, timestamp, previous_hash, n)]
    built from the fields of [b]. *)
Definition with_nonce (b : Block) (n : Z) : Block :=
  block.init (index b) (transactions b) (timestamp b) (previous_hash b) n.

(** The four checks of [is_chain_valid] on a block and its predecessor. *)
Definition hash_ok (cur : Block) : Prop :=
  hash cur = block.calculate_hash cur.
Definition link_ok (prev cur : Block) : Prop :=
  previous_hash cur = hash prev.
Definition work_ok (d : Z) (cur : Block) : Prop :=
  (d <= Z.of_nat (leading_zeros (hash cur)))%Z.
Definition transactions_ok (cur : Block) : Prop :=
  forall tx_dict, In tx_dict (transactions cur) ->
                  is_valid (transaction.from_dict tx_dict) = true.

Definition passes (d : Z) (prev cur : Block) : Prop :=
  hash_ok cur /\ link_ok prev cur /\ work_ok d cur /\ transactions_ok cur.

(** Block [i] of the ledger passes the checks against block [i - 1]. *)
Definition passes_at (self : Blockchain) (i : nat) : Prop :=
  forall cur prev,
    nth_error (chain self) i = Some cur ->
    nth_error (chain self) (i - 1) = Some prev ->
    passes (difficulty self) prev cur.

(** The line printed for block [i]: the one of the first check, in the
    order (a), (b), (c), (d), that fails. *)
Inductive first_failure (d : Z) (i : nat) (prev cur : Block) : string -> Prop :=
| fails_hash :
    ~ hash_ok cur ->
    first_failure d i prev cur (invalid_hash_msg i)
| fails_link :
    hash_ok cur -> ~ link_ok prev cur ->
    first_failure d i prev cur (invalid_previous_hash_msg i)
| fails_work :
    hash_ok cur -> link_ok prev cur -> ~ work_ok d cur ->
    first_failure d i prev cur (invalid_proof_of_work_msg i)
| fails_transactions :
    hash_ok cur -> link_ok prev cur -> work_ok d cur -> ~ transactions_ok cur ->
    first_failure d i prev cur (invalid_transaction_msg i).

Definition in_range (self : Blockchain) (i : nat) : Prop :=
  1 <= i < List.length (chain self).

(** The chain a peer offers: the body of a 200 answer, block by block. *)
Definition candidate (x : Exchange) : option (list Block) :=
  match response x with
  | RequestException => None
  | HttpResponse status_code data =>
      if (status_code =? 200)%Z then Some (map block.from_dict (d_chain data))
      else None
  end.

(** The scratch ledger [Blockchain()] once its chain is [c]. *)
Definition scratch (c : list Block) : Blockchain := mkBlockchain c 4 [] 50.

Definition scratch_valid (c : list Block) : Prop :=
  is_chain_valid (scratch c) = Return true.

(** What the two loop variables say after the peers in [visited]. *)
Definition resolved (network : string -> Exchange) (local_length : nat)
           (visited : list string) (st : option (list Block) * nat) : Prop :=
  match fst st with
  | None =>
      snd st = local_length /\
      forall q c, In q visited -> candidate (network q) = Some c ->
                  scratch_valid c -> List.length c <= local_length
  | Some c =>
      snd st = List.length c /\
      local_length < List.length c /\
      scratch_valid c /\
      exists before p after,
        visited = before ++ p :: after /\
        candidate (network p) = Some c /\
        (forall q c', In q before -> candidate (network q) = Some c' ->
                      scratch_valid c' -> List.length c' < List.length c) /\
        (forall q c', In q after -> candidate (network q) = Some c' ->
                      scratch_valid c' -> List.length c' <= List.length c)
  end.

(** The three grounds on which [add_transaction] turns a transaction down. *)
Definition inadmissible (tx : Transaction) (self : Blockchain) : Prop :=
  (sender tx = EmptyString \/ recipient tx = EmptyString) \/
  is_valid tx = false \/
  (sender tx <> COINBASE /\ (get_balance self (sender tx) < amount tx)%Q).

(** The pool as [mine_pending_transactions] batches it for [address]. *)
Definition reward_tx (self : Blockchain) (address : string) : Transaction :=
  mkTransaction COINBASE address (mining_reward self) None.

Definition batch (self : Blockchain) (address : string) : list tx_dict :=
  map transaction.to_dict (reward_tx self address :: pending_transactions self).

(** Ledgers the code builds: the constructor, then [add_transaction] on
    transactions satisfying [ok], and runs of
    [mine_pending_transactions] that return. *)
Inductive built (ok : Transaction -> Prop) : Blockchain -> Prop :=
| built_init (fuel : nat) (now : Q) (d : Z) (r : Q) (self : Blockchain) :
    blockchain.init fuel now d r = Return self ->
    built ok self
| built_add (tx : Transaction) (self : Blockchain) :
    built ok self -> ok tx ->
    built ok (snd (add_transaction tx self))
| built_mine (fuel : nat) (now : Q) (address : string) (self self' : Blockchain) :
    built ok self ->
    mine_pending_transactions fuel now address self = (Return None, self') ->
    built ok self'.

Definition any_transaction (tx : Transaction) : Prop := True.

(** A dictionary that reads as the reward of a block. *)
Definition is_reward (reward : Q) (d : tx_dict) : Prop :=
  d_sender d = COINBASE /\ d_amount d = reward /\ d_signature d = None.

(** The shape of block [i] of a ledger the code built. *)
Definition well_formed_block (reward : Q) (i : nat) (b : Block) : Prop :=
  index b = Z.of_nat i /\
  match i with
  | O => transactions b = [] /\ previous_hash b = "0"%string
  | S _ => exists first rest, transactions b = first :: rest /\ is_reward reward first
  end.

(** What every ledger the code built satisfies. *)
Definition sound (self : Blockchain) : Prop :=
  chain self <> [] /\
  (forall i, in_range self i -> passes_at self i) /\
  Forall (fun tx => is_valid tx = true) (pending_transactions self) /\
  (forall i b, nth_error (chain self) i = Some b ->
               well_formed_block (mining_reward self) i b).

(** Every transfer a ledger records, as (sender, recipient, amount):
    those of the blocks in chain order, then those of the pool. *)
Definition entries (self : Blockchain) : list (string * string * Q) :=
  flat_map (fun b => map (fun t => (d_sender t, d_recipient t, d_amount t))
                         (transactions b))
           (chain self)
  ++ map (fun tx => (sender tx, recipient tx, amount tx)) (pending_transactions self).

(** The balance loop run over a list of transfers. *)
Definition replay (address : string) (es : list (string * string * Q)) (balance : Q) : Q :=
  fold_left (fun bal e => balance_step address (fst (fst e)) (snd (fst e)) (snd e) bal)
            es balance.

(** Sum of [f] over a list of addresses. *)
Definition total (f : string -> Q) (addresses : list string) : Q :=
  fold_right (fun a acc => (f a + acc)%Q) 0%Q addresses.

(** What a transfer of [amount] from [sender] to [recipient] adds to the
    balance of [address]. *)
Definition delta (address sender recipient : string) (amount : Q) : Q :=
  ((if (recipient =? address)%string then amount else 0)
   - (if (sender =? address)%string then amount else 0))%Q.

Definition nonnegative_amount (tx : Transaction) : Prop := (0 <= amount tx)%Q.

(** The chain with block [i] replaced by [b]. *)
Definition replace_block (i : nat) (b : Block) (c : list Block) : list Block :=
  firstn i c ++ b :: skipn (S i) c.

End vocabulary.

(* ================================================================== *)
(** * Properties *)
(* ================================================================== *)

(** ** Strings of zeros *)

Lemma str_mul_zeros (d : Z) : str_mul "0" d = zeros (Z.to_nat d).
Proof.
  unfold str_mul. induction (Z.to_nat d) as [|n IH]; [reflexivity|].
  rewrite Nat.iter_succ, IH. reflexivity.
Qed.

Lemma take_zeros (n : nat) (s : string) :
  take n s = zeros n <-> n <= leading_zeros s.
Proof.
  revert s; induction n as [|n IH]; intros s.
  - destruct s; simpl; split; intros; auto; lia.
  - destruct s as [|c s]; simpl.
    + split; [discriminate | lia].
    + destruct (Ascii.eqb_spec c "0") as [->|Hc].
      * rewrite <- Nat.succ_le_mono, <- IH. split; [now inversion 1 | now intros ->].
      * split; [inversion 1; congruence | lia].
Qed.

Lemma prefix_zeros (n : nat) (s : string) :
  String.prefix (zeros n) s = true <-> n <= leading_zeros s.
Proof.
  revert s; induction n as [|n IH]; intros s.
  - destruct s; simpl; split; intros; auto; lia.
  - destruct s as [|c s]; cbn [String.prefix zeros leading_zeros].
    + split; [discriminate | lia].
    + destruct (ascii_dec "0" c) as [<-|Hc].
      * rewrite Ascii.eqb_refl, <- Nat.succ_le_mono. apply IH.
      * destruct (Ascii.eqb_spec c "0") as [->|_]; [congruence|].
        split; [discriminate | lia].
Qed.

Lemma take_empty (n : nat) (s : string) :
  take n s = EmptyString <-> n = 0 \/ s = EmptyString.
Proof.
  destruct n, s; simpl; split; intros; auto; try discriminate.
  destruct H as [H|H]; discriminate.
Qed.

(** [hash.startswith("0" * d)] says the hash has at least [d] leading
    zeros, whatever the sign of [d]. *)
Lemma startswith_zeros (d : Z) (h : string) :
  startswith h (str_mul "0" d) = true <-> (d <= Z.of_nat (leading_zeros h))%Z.
Proof.
  unfold startswith. rewrite str_mul_zeros, prefix_zeros. lia.
Qed.

Section properties.
Context `{Externals}.
Import transaction block blockchain node.

(** ** Mining *)

Lemma with_nonce_self (b : Block) :
  hash b = block.calculate_hash b -> with_nonce b (nonce b) = b.
Proof.
  destruct b as [i t ts p n h]; unfold with_nonce, block.init, block.calculate_hash;
    simpl; intros ->; reflexivity.
Qed.

Lemma mine_step_with_nonce (b : Block) :
  mine_step b = with_nonce b (nonce b + 1).
Proof. reflexivity. Qed.

Lemma with_nonce_with_nonce (b : Block) (n m : Z) :
  with_nonce (with_nonce b n) m = with_nonce b m.
Proof. reflexivity. Qed.

Lemma with_nonce_hash (b : Block) (n : Z) :
  hash (with_nonce b n) = block.calculate_hash (with_nonce b n).
Proof. reflexivity. Qed.

Lemma mined_nonneg (d : Z) (b : Block) :
  (0 <= d)%Z ->
  mined d b = true <-> (d <= Z.of_nat (leading_zeros (hash b)))%Z.
Proof.
  intros Hd. unfold mined, slice_to.
  destruct (Z.ltb_spec d 0); [lia|].
  rewrite String.eqb_eq, str_mul_zeros, take_zeros. lia.
Qed.

Lemma mined_neg (d : Z) (b : Block) :
  (d < 0)%Z -> String.length (hash b) = 64 ->
  mined d b = true <-> (d <= -64)%Z.
Proof.
  intros Hd Hlen. unfold mined, slice_to.
  destruct (Z.ltb_spec d 0); [|lia].
  rewrite String.eqb_eq, str_mul_zeros, Hlen.
  replace (Z.to_nat d) with 0 by lia. simpl zeros.
  rewrite take_empty. split.
  - intros [Hn|Hs]; [lia|]. rewrite Hs in Hlen. discriminate.
  - intros Hle. left. lia.
Qed.

(** What a successful run of the loop looks like: [k] turns, none of
    the blocks met before the last one passing the guard. *)
Lemma mine_block_inv (d : Z) (fuel : nat) :
  forall b b',
    hash b = block.calculate_hash b ->
    mine_block fuel d b = Return b' ->
    exists k : nat,
      b' = with_nonce b (nonce b + Z.of_nat k) /\
      mined d b' = true /\
      forall j : nat, j < k -> mined d (with_nonce b (nonce b + Z.of_nat j)) = false.
Proof.
  induction fuel as [|fuel IH]; intros b b' Hb Hrun; simpl in Hrun;
    destruct (mined d b) eqn:Hm; try discriminate.
  - injection Hrun as <-. exists 0. rewrite Z.add_0_r, with_nonce_self by assumption.
    repeat split; auto. intros j Hj; lia.
  - injection Hrun as <-. exists 0. rewrite Z.add_0_r, with_nonce_self by assumption.
    repeat split; auto. intros j Hj; lia.
  - apply IH in Hrun; [|reflexivity].
    destruct Hrun as (k & Hb' & Hmined & Hmin).
    rewrite mine_step_with_nonce, with_nonce_with_nonce in Hb'.
    exists (S k). split; [|split; [assumption|]].
    + rewrite Hb'. f_equal. simpl nonce. lia.
    + intros [|j] Hj.
      * now rewrite Z.add_0_r, with_nonce_self.
      * specialize (Hmin j ltac:(lia)).
        rewrite mine_step_with_nonce, with_nonce_with_nonce in Hmin.
        simpl nonce in Hmin.
        replace (nonce b + Z.of_nat (S j))%Z with (nonce b + 1 + Z.of_nat j)%Z by lia.
        exact Hmin.
Qed.

(** The loop stops as soon as the fuel covers the distance to the
    first nonce whose hash passes the guard. *)
Lemma mine_block_terminates (d : Z) (k : nat) :
  forall b fuel,
    mined d (Nat.iter k mine_step b) = true -> k <= fuel ->
    exists b', mine_block fuel d b = Return b'.
Proof.
  induction k as [|k IH]; intros b fuel Hk Hfuel.
  - simpl in Hk. destruct fuel; simpl; rewrite Hk; eauto.
  - destruct fuel as [|fuel]; [lia|]. simpl.
    destruct (mined d b); [eauto|].
    apply IH; [|lia]. now rewrite <- Nat.iter_succ_r.
Qed.

Lemma mine_block_no_raise (d : Z) (fuel : nat) :
  forall b e, mine_block fuel d b <> Raise e.
Proof.
  induction fuel as [|fuel IH]; intros b e; simpl;
    destruct (mined d b); try discriminate. apply IH.
Qed.

(** C5. A block whose stored hash is the hash of its fields, once
    [mine_block d] has returned: the stored hash is again the hash of
    the fields and has at least [d] leading zeros; the nonce did not
    decrease and no nonce from the old one up to the new one (excluded)
    gives a hash with [d] leading zeros; index, transactions, timestamp
    and previous hash are untouched. *)
Theorem mine_block_postcondition (d : Z) (fuel : nat) (b b' : Block) :
  hash b = block.calculate_hash b ->
  mine_block fuel d b = Return b' ->
  hash b' = block.calculate_hash b' /\
  (d <= Z.of_nat (leading_zeros (hash b')))%Z /\
  (nonce b <= nonce b')%Z /\
  (forall n : Z,
      (nonce b <= n < nonce b')%Z ->
      ~ (d <= Z.of_nat (leading_zeros (block.calculate_hash (with_nonce b n))))%Z) /\
  index b' = index b /\
  transactions b' = transactions b /\
  timestamp b' = timestamp b /\
  previous_hash b' = previous_hash b.
Proof.
  intros Hb Hrun.
  destruct (mine_block_inv _ _ _ _ Hb Hrun) as (k & -> & Hmined & Hmin).
  assert (Hlen : forall n, String.length (hash (with_nonce b n)) = 64)
    by (intros n; apply sha256_hexdigest_length).
  split; [reflexivity|].
  split.
  { destruct (Z.ltb_spec d 0) as [Hneg|Hpos]; [lia|].
    now apply mined_nonneg. }
  split; [simpl; lia|].
  split; [|repeat split].
  intros n Hn Hzeros. simpl nonce in Hn.
  assert (Hj : exists j : nat, j < k /\ n = (nonce b + Z.of_nat j)%Z).
  { exists (Z.to_nat (n - nonce b)). split; lia. }
  destruct Hj as (j & Hj & ->).
  specialize (Hmin j Hj).
  destruct (Z.ltb_spec d 0) as [Hneg|Hpos].
  - (* a negative difficulty: with 64-character hashes the guard never
       changes its mind, so the loop cannot have run [k > 0] turns *)
    pose proof (proj1 (mined_neg d _ Hneg (Hlen (nonce b + Z.of_nat k)%Z)) Hmined) as Hd.
    apply (mined_neg d _ Hneg (Hlen (nonce b + Z.of_nat j)%Z)) in Hd. congruence.
  - rewrite <- with_nonce_hash in Hzeros.
    apply (mined_nonneg d _ Hpos) in Hzeros. congruence.
Qed.

(** ** Chain verification *)

Lemma check_block_cases (d : Z) (i : nat) (cur prev : Block) :
  (check_block d i cur prev = None /\ passes d prev cur) \/
  (exists line, check_block d i cur prev = Some line /\
                first_failure d i prev cur line /\ ~ passes d prev cur).
Proof.
  unfold check_block, passes.
  destruct (String.eqb_spec (hash cur) (block.calculate_hash cur)) as [Ha|Ha]; simpl.
  2:{ right. eexists. split; [reflexivity|]. split; [now constructor|tauto]. }
  destruct (String.eqb_spec (previous_hash cur) (hash prev)) as [Hb|Hb]; simpl.
  2:{ right. eexists. split; [reflexivity|]. split; [now constructor|tauto]. }
  destruct (startswith (hash cur) (str_mul "0" d)) eqn:Hc; simpl.
  2:{ right. eexists. split; [reflexivity|].
      assert (~ work_ok d cur).
      { unfold work_ok. rewrite <- startswith_zeros. congruence. }
      split; [now constructor|tauto]. }
  apply startswith_zeros in Hc.
  destruct (forallb _ (transactions cur)) eqn:Hd; simpl.
  - left. rewrite forallb_forall in Hd. tauto.
  - right. eexists. split; [reflexivity|].
    assert (~ transactions_ok cur).
    { unfold transactions_ok. rewrite <- forallb_forall. congruence. }
    split; [now constructor|tauto].
Qed.

Lemma in_range_blocks (self : Blockchain) (i : nat) :
  in_range self i ->
  exists cur prev,
    nth_error (chain self) i = Some cur /\ nth_error (chain self) (i - 1) = Some prev.
Proof.
  intros [H1 H2].
  destruct (nth_error (chain self) i) as [cur|] eqn:Hc.
  2:{ apply nth_error_None in Hc. lia. }
  destruct (nth_error (chain self) (i - 1)) as [prev|] eqn:Hp.
  2:{ apply nth_error_None in Hp. lia. }
  eauto.
Qed.

(** The loop on a list of indices inside the chain: it returns, with
    [true] and no line when every index passes, and with [false] and
    the line of the first index that does not. *)
Lemma is_chain_valid_loop_spec (self : Blockchain) (indices : list nat) :
  Forall (in_range self) indices ->
  (is_chain_valid_loop self indices = Return (true, []) /\
   Forall (passes_at self) indices) \/
  (exists before i after cur prev line,
      indices = before ++ i :: after /\
      Forall (passes_at self) before /\
      nth_error (chain self) i = Some cur /\
      nth_error (chain self) (i - 1) = Some prev /\
      check_block (difficulty self) i cur prev = Some line /\
      ~ passes (difficulty self) prev cur /\
      is_chain_valid_loop self indices = Return (false, [line])).
Proof.
  induction indices as [|i indices IH]; intros Hrange.
  - left. split; [reflexivity|constructor].
  - inversion Hrange as [|? ? Hi Hrest]; subst.
    destruct (in_range_blocks _ _ Hi) as (cur & prev & Hc & Hp).
    cbn [is_chain_valid_loop]. unfold getitem. rewrite Hc, Hp. cbn [py.bind].
    destruct (check_block_cases (difficulty self) i cur prev)
      as [[Hnone Hpass]|(line & Hsome & Hfirst & Hnot)].
    + rewrite Hnone.
      assert (Hat : passes_at self i).
      { intros c p Hc' Hp'. congruence. }
      destruct (IH Hrest) as [[Hrun Hall]|(before & j & after & c & p & l & Heq & Hbefore & Hrest')].
      * left. split; [assumption|now constructor].
      * right. exists (i :: before), j, after, c, p, l.
        split; [now rewrite Heq|]. split; [now constructor|]. exact Hrest'.
    + rewrite Hsome. right. exists [], i, indices, cur, prev, line.
      repeat split; auto.
Qed.

Lemma range_in_range (self : Blockchain) :
  Forall (in_range self) (range 1 (List.length (chain self))).
Proof.
  apply Forall_forall. intros i Hi. unfold range in Hi.
  apply in_seq in Hi. unfold in_range. lia.
Qed.

Lemma is_chain_valid_loop_pass (self : Blockchain) (indices : list nat) :
  Forall (in_range self) indices ->
  Forall (passes_at self) indices ->
  is_chain_valid_loop self indices = Return (true, []).
Proof.
  intros Hrange Hall.
  destruct (is_chain_valid_loop_spec self indices Hrange)
    as [[Hrun _]|(before & i & after & cur & prev & line & Heq & _ & Hc & Hp & _ & Hnot & _)];
    [assumption|].
  exfalso. apply Hnot. rewrite Forall_forall in Hall.
  apply (Hall i); [|assumption..]. rewrite Heq. apply in_elt.
Qed.

Lemma is_chain_valid_loop_app (self : Blockchain) (l1 l2 : list nat) :
  is_chain_valid_loop self l1 = Return (true, []) ->
  is_chain_valid_loop self (l1 ++ l2) = is_chain_valid_loop self l2.
Proof.
  induction l1 as [|i l1 IH]; [reflexivity|]. cbn [is_chain_valid_loop app].
  destruct (getitem (chain self) i) as [cur| |]; cbn [py.bind]; try discriminate.
  destruct (getitem (chain self) (i - 1)) as [prev| |]; cbn [py.bind]; try discriminate.
  destruct (check_block _ _ _ _); [discriminate|exact IH].
Qed.

(** Blocks after position [i] replaced by [later]: positions up to [i]
    are read as before. *)
Lemma nth_error_replace_later (chain later : list Block) (i j : nat) :
  j <= i -> i < List.length chain ->
  nth_error (firstn (S i) chain ++ later) j = nth_error chain j.
Proof.
  intros Hj Hi.
  rewrite nth_error_app1 by (rewrite length_firstn; lia).
  rewrite nth_error_firstn.
  destruct (Nat.ltb_spec j (S i)); [reflexivity|lia].
Qed.

(** C1. [is_chain_valid] always hands back a boolean. It is [true]
    exactly when every block of index [i >= 1] (a) stores the hash of
    its five fields, (b) names the stored hash of block [i - 1] as its
    previous hash, (c) has a stored hash with at least [difficulty]
    leading zeros and (d) holds only transactions that pass [is_valid].
    When [i] is the first index that fails, the answer is [false] and
    the single line printed is the one of the first failing check of
    block [i], whatever blocks follow position [i]. *)
Theorem is_chain_valid_spec (self : Blockchain) :
  (exists b lines,
      is_chain_valid_io self = Return (b, lines) /\
      is_chain_valid self = Return b) /\
  (is_chain_valid self = Return true <->
   forall i, 1 <= i -> passes_at self i) /\
  (forall i,
      in_range self i ->
      (forall j, 1 <= j < i -> passes_at self j) ->
      ~ passes_at self i ->
      exists cur prev line,
        nth_error (chain self) i = Some cur /\
        nth_error (chain self) (i - 1) = Some prev /\
        first_failure (difficulty self) i prev cur line /\
        forall later,
          is_chain_valid_io
            (set_chain self (firstn (S i) (chain self) ++ later))
          = Return (false, [line])).
Proof.
  pose proof (is_chain_valid_loop_spec self _ (range_in_range self)) as Hspec.
  split; [|split].
  - unfold is_chain_valid, is_chain_valid_io.
    destruct Hspec as [[Hrun _]|(? & ? & ? & ? & ? & line & _ & _ & _ & _ & _ & _ & Hrun)];
      rewrite Hrun; eauto.
  - unfold is_chain_valid, is_chain_valid_io. split.
    + intros Hrun i Hi.
      destruct Hspec as [[_ Hall]|(? & ? & ? & ? & ? & line & _ & _ & _ & _ & _ & _ & Hrun')].
      2:{ rewrite Hrun' in Hrun. discriminate. }
      destruct (Nat.lt_ge_cases i (List.length (chain self))) as [Hlt|Hge].
      * rewrite Forall_forall in Hall. apply Hall. unfold range.
        apply in_seq. lia.
      * intros cur prev Hc _. apply nth_error_None in Hge. congruence.
    + intros Hall.
      rewrite is_chain_valid_loop_pass; [reflexivity|apply range_in_range|].
      apply Forall_forall. intros i Hi. apply Hall.
      unfold range in Hi. apply in_seq in Hi. lia.
  - intros i Hi Hbefore Hfail.
    destruct (in_range_blocks _ _ Hi) as (cur & prev & Hc & Hp).
    destruct (check_block_cases (difficulty self) i cur prev)
      as [[_ Hpass]|(line & Hsome & Hfirst & _)].
    { exfalso. apply Hfail. intros c p Hc' Hp'. congruence. }
    exists cur, prev, line. repeat split; try assumption.
    intros later. destruct Hi as [Hi1 Hi2].
    set (self' := set_chain self (firstn (S i) (chain self) ++ later)).
    assert (Hnth : forall j, j <= i ->
              nth_error (chain self') j = nth_error (chain self) j).
    { intros j Hj. now apply nth_error_replace_later. }
    assert (Hlen : List.length (chain self') = S i + List.length later).
    { unfold self'. cbn [chain set_chain].
      rewrite length_app, length_firstn. lia. }
    unfold is_chain_valid_io, range. rewrite Hlen.
    replace (S i + List.length later - 1) with ((i - 1) + S (List.length later)) by lia.
    rewrite seq_app.
    rewrite is_chain_valid_loop_app.
    + replace (1 + (i - 1)) with i by lia.
      cbn [seq is_chain_valid_loop]. unfold getitem.
      rewrite !Hnth by lia. rewrite Hc, Hp. cbn [py.bind].
      change (difficulty self') with (difficulty self). now rewrite Hsome.
    + apply is_chain_valid_loop_pass.
      * apply Forall_forall. intros j Hj. apply in_seq in Hj.
        unfold in_range. lia.
      * apply Forall_forall. intros j Hj. apply in_seq in Hj.
        intros c p Hc' Hp'. rewrite Hnth in Hc', Hp' by lia.
        exact (Hbefore j ltac:(lia) c p Hc' Hp').
Qed.

(** ** The genesis block is not verified *)

Lemma check_block_previous (d : Z) (i : nat) (cur prev prev' : Block) :
  hash prev = hash prev' ->
  check_block d i cur prev = check_block d i cur prev'.
Proof. intros Heq. unfold check_block. now rewrite Heq. Qed.

(** Two ledgers that differ in block 0 only, the two blocks 0 storing
    the same hash, go through the loop alike. *)
Lemma is_chain_valid_loop_genesis (g g' : Block) (rest : list Block)
      (d : Z) (p p' : list Transaction) (r r' : Q) (indices : list nat) :
  hash g = hash g' ->
  Forall (fun i => 1 <= i) indices ->
  is_chain_valid_loop (mkBlockchain (g :: rest) d p r) indices =
  is_chain_valid_loop (mkBlockchain (g' :: rest) d p' r') indices.
Proof.
  intros Hhash. induction indices as [|i indices IH]; intros Hpos; [reflexivity|].
  inversion Hpos as [|? ? Hi Hrest]; subst.
  cbn [is_chain_valid_loop chain difficulty]. unfold getitem.
  destruct i as [|i]; [lia|]. cbn [nth_error].
  destruct (nth_error rest i) as [cur|]; cbn [py.bind]; [|reflexivity].
  replace (S i - 1) with i by lia.
  destruct i as [|i]; cbn [nth_error py.bind].
  - rewrite (check_block_previous d 1 cur g g' Hhash).
    destruct (check_block d 1 cur g'); [reflexivity|now apply IH].
  - destruct (nth_error rest i) as [prev|]; cbn [py.bind]; [|reflexivity].
    destruct (check_block d (S (S i)) cur prev); [reflexivity|now apply IH].
Qed.

(** C10. Block 0 is never checked. A ledger whose chain is one block
    long is valid whatever that block holds; and in any ledger, block 0
    can be replaced by any block storing the same hash (its other
    fields, the hash of those fields, its transactions and the zeros of
    its hash all free) without changing the answer or the line printed. *)
Theorem genesis_block_is_not_verified :
  (forall (g : Block) (d : Z) (p : list Transaction) (r : Q),
      is_chain_valid_io (mkBlockchain [g] d p r) = Return (true, []) /\
      is_chain_valid (mkBlockchain [g] d p r) = Return true) /\
  (forall (g g' : Block) (rest : list Block) (d : Z) (p : list Transaction) (r : Q),
      hash g = hash g' ->
      is_chain_valid_io (mkBlockchain (g :: rest) d p r) =
      is_chain_valid_io (mkBlockchain (g' :: rest) d p r) /\
      is_chain_valid (mkBlockchain (g :: rest) d p r) =
      is_chain_valid (mkBlockchain (g' :: rest) d p r)).
Proof.
  split.
  - intros g d p r. split; reflexivity.
  - intros g g' rest d p r Hhash.
    assert (Hio : is_chain_valid_io (mkBlockchain (g :: rest) d p r) =
                  is_chain_valid_io (mkBlockchain (g' :: rest) d p r)).
    { unfold is_chain_valid_io. cbn [chain List.length].
      apply is_chain_valid_loop_genesis; [assumption|].
      apply Forall_forall. intros i Hi. unfold range in Hi.
      apply in_seq in Hi. lia. }
    split; [exact Hio|]. unfold is_chain_valid. now rewrite Hio.
Qed.

(** ** Transactions: the coinbase exemption and failed verification *)

Lemma ltb_spec (a b : Q) : ltb a b = true <-> (a < b)%Q.
Proof.
  unfold ltb. rewrite Qlt_alt. destruct (a ?= b)%Q; split; congruence.
Qed.

Lemma falsy_spec (s : string) : falsy s = true <-> s = EmptyString.
Proof. destruct s; simpl; split; congruence. Qed.

Lemma falsy_false (s : string) : s <> EmptyString -> falsy s = false.
Proof. destruct s; simpl; congruence. Qed.

(** C6. A transaction sent by [COINBASE] passes [is_valid] whatever
    its signature field holds, and [add_transaction] admits it into
    any ledger as soon as its recipient is not empty, the balance of
    [COINBASE] playing no part. For any other sender, [is_valid] is
    [false] when the signature is absent, and [false] again when the
    verification raises, be it a bad signature or any other error. *)
Theorem coinbase_exemption (tx : Transaction) :
  (sender tx = COINBASE ->
   is_valid tx = true /\
   forall self : Blockchain,
     recipient tx <> EmptyString ->
     add_transaction tx self =
     (true, set_pending_transactions self (pending_transactions self ++ [tx]))) /\
  (sender tx <> COINBASE ->
   (signature tx = None -> is_valid tx = false) /\
   (forall sig,
       signature tx = Some sig ->
       ecdsa_verify (sender tx) sig (transaction.calculate_hash tx) <> Verified ->
       is_valid tx = false)).
Proof.
  split.
  - intros Hcb.
    assert (Hvalid : is_valid tx = true).
    { unfold is_valid. rewrite Hcb. reflexivity. }
    split; [exact Hvalid|].
    intros self Hrec. unfold add_transaction.
    rewrite Hvalid, (falsy_false _ Hrec), Hcb. reflexivity.
  - intros Hne. apply String.eqb_neq in Hne. unfold is_valid. rewrite Hne.
    split.
    + intros ->. reflexivity.
    + intros sig -> Hbad. destruct (falsy sig); [reflexivity|].
      destruct (ecdsa_verify _ _ _); congruence.
Qed.

(** ** Consensus *)

Lemma is_chain_valid_returns (self : Blockchain) :
  exists b, is_chain_valid self = Return b.
Proof.
  unfold is_chain_valid, is_chain_valid_io.
  destruct (is_chain_valid_loop_spec self _ (range_in_range self))
    as [[Hrun _]|(? & ? & ? & ? & ? & line & _ & _ & _ & _ & _ & _ & Hrun)];
    rewrite Hrun; cbn [py.bind fst]; eauto.
Qed.

Lemma init_fields (fuel : nat) (now : Q) (d : Z) (r : Q) (self : Blockchain) :
  blockchain.init fuel now d r = Return self ->
  exists g, self = mkBlockchain [g] d [] r.
Proof.
  unfold blockchain.init, create_genesis_block. cbn [difficulty chain].
  destruct (mine_block fuel d _) as [g| |]; cbn [py.bind]; try discriminate.
  intros [= <-]. now exists g.
Qed.

Lemma visit_peer_cases (fuel : nat) (x : Exchange)
      (new_chain : option (list Block)) (max_length : nat)
      (st' : option (list Block) * nat) :
  visit_peer fuel x (new_chain, max_length) = Return st' ->
  (candidate x = None /\ st' = (new_chain, max_length)) \/
  (exists c, candidate x = Some c /\
             (List.length c <= max_length \/ ~ scratch_valid c) /\
             st' = (new_chain, max_length)) \/
  (exists c, candidate x = Some c /\ max_length < List.length c /\
             scratch_valid c /\ st' = (Some c, List.length c)).
Proof.
  unfold visit_peer, candidate.
  destruct (response x) as [|status_code data].
  { intros [= <-]. now left. }
  destruct (status_code =? 200)%Z.
  2:{ intros [= <-]. now left. }
  rewrite <- (length_map block.from_dict (d_chain data)).
  set (c := map block.from_dict (d_chain data)).
  destruct (Nat.ltb_spec max_length (List.length c)) as [Hlt|Hge].
  2:{ intros [= <-]. right; left. exists c. auto. }
  unfold init_default.
  destruct (blockchain.init fuel (clock x) 4 50) as [temp| |] eqn:Hinit;
    cbn [py.bind]; try discriminate.
  destruct (init_fields _ _ _ _ _ Hinit) as [g ->].
  change (set_chain (mkBlockchain [g] 4 [] 50) c) with (scratch c).
  destruct (is_chain_valid (scratch c)) as [[|]| |] eqn:Hvalid;
    cbn [py.bind]; try discriminate; intros [= <-].
  - right; right. exists c. auto.
  - right; left. exists c. split; [reflexivity|]. split; [|reflexivity].
    right. unfold scratch_valid. congruence.
Qed.

Lemma visit_peer_returns (fuel : nat) (x : Exchange)
      (st : option (list Block) * nat) :
  (exists temp, init_default fuel (clock x) = Return temp) ->
  exists st', visit_peer fuel x st = Return st'.
Proof.
  intros [temp Htemp]. destruct st as [new_chain max_length]. unfold visit_peer.
  destruct (response x) as [|status_code data]; [eauto|].
  destruct (status_code =? 200)%Z; [|eauto].
  destruct (max_length <? List.length (d_chain data)); [|eauto].
  rewrite Htemp. cbn [py.bind].
  destruct (is_chain_valid_returns
              (set_chain temp (map block.from_dict (d_chain data)))) as [[|] ->];
    cbn [py.bind]; eauto.
Qed.

Lemma visit_peer_no_raise (fuel : nat) (x : Exchange)
      (st : option (list Block) * nat) (e : exception) :
  visit_peer fuel x st <> Raise e.
Proof.
  destruct st as [new_chain max_length]. unfold visit_peer.
  destruct (response x) as [|status_code data]; [discriminate|].
  destruct (status_code =? 200)%Z; [|discriminate].
  destruct (max_length <? List.length (d_chain data)); [|discriminate].
  unfold init_default, blockchain.init, create_genesis_block.
  cbn [difficulty chain].
  destruct (mine_block fuel 4 _) as [g| |] eqn:Hg; cbn [py.bind];
    [|now apply mine_block_no_raise in Hg|discriminate].
  match goal with
  | |- context [is_chain_valid ?bc] =>
      destruct (is_chain_valid_returns bc) as [[|] ->]
  end; cbn [py.bind]; discriminate.
Qed.

Lemma visit_peer_resolved (fuel : nat) (network : string -> Exchange)
      (local_length : nat) (visited : list string) (p : string)
      (st st' : option (list Block) * nat) :
  resolved network local_length visited st ->
  visit_peer fuel (network p) st = Return st' ->
  resolved network local_length (visited ++ [p]) st'.
Proof.
  destruct st as [new_chain max_length]. intros Hinv Hstep.
  apply visit_peer_cases in Hstep.
  destruct Hstep as [[Hnone ->]|[(c & Hc & Hskip & ->)|(c & Hc & Hlt & Hvalid & ->)]].
  - (* no chain offered *)
    unfold resolved in *. cbn [fst snd] in *. destruct new_chain as [c0|].
    + destruct Hinv as (Hmax & Hlocal & Hv & before & p0 & after & -> & Hp0 & Hb & Ha).
      repeat split; try assumption.
      exists before, p0, (after ++ [p]). rewrite <- app_assoc. repeat split; auto.
      intros q c' Hq Hqc Hqv. apply in_app_or in Hq. destruct Hq as [Hq|[<-|[]]]; eauto.
      congruence.
    + destruct Hinv as (Hmax & Hall). split; [assumption|].
      intros q c' Hq Hqc Hqv. apply in_app_or in Hq. destruct Hq as [Hq|[<-|[]]]; eauto.
      congruence.
  - (* a chain that is not longer, or not valid *)
    unfold resolved in *. cbn [fst snd] in *. destruct new_chain as [c0|].
    + destruct Hinv as (Hmax & Hlocal & Hv & before & p0 & after & -> & Hp0 & Hb & Ha).
      repeat split; try assumption.
      exists before, p0, (after ++ [p]). rewrite <- app_assoc. repeat split; auto.
      intros q c' Hq Hqc Hqv. apply in_app_or in Hq. destruct Hq as [Hq|[<-|[]]]; eauto.
      rewrite Hc in Hqc. injection Hqc as <-.
      destruct Hskip as [Hle|Hbad]; [lia|contradiction].
    + destruct Hinv as (Hmax & Hall). split; [assumption|].
      intros q c' Hq Hqc Hqv. apply in_app_or in Hq. destruct Hq as [Hq|[<-|[]]]; eauto.
      rewrite Hc in Hqc. injection Hqc as <-.
      destruct Hskip as [Hle|Hbad]; [lia|contradiction].
  - (* a longer valid chain: it becomes the choice *)
    unfold resolved in *. cbn [fst snd] in *.
    split; [reflexivity|]. destruct new_chain as [c0|].
    + destruct Hinv as (Hmax & Hlocal & Hv & before & p0 & after & -> & Hp0 & Hb & Ha).
      split; [lia|]. split; [assumption|].
      exists (before ++ p0 :: after), p, []. repeat split; auto.
      * intros q c' Hq Hqc Hqv. apply in_app_or in Hq.
        destruct Hq as [Hq|[<-|Hq]].
        -- specialize (Hb q c' Hq Hqc Hqv). lia.
        -- rewrite Hp0 in Hqc. injection Hqc as <-. lia.
        -- specialize (Ha q c' Hq Hqc Hqv). lia.
      * intros q c' [].
    + destruct Hinv as (Hmax & Hall).
      split; [lia|]. split; [assumption|].
      exists visited, p, []. repeat split; auto.
      * intros q c' Hq Hqc Hqv. specialize (Hall q c' Hq Hqc Hqv). lia.
      * intros q c' [].
Qed.

Lemma visit_peers_resolved (fuel : nat) (network : string -> Exchange)
      (local_length : nat) (rest : list string) :
  forall visited st st',
    resolved network local_length visited st ->
    visit_peers fuel network rest st = Return st' ->
    resolved network local_length (visited ++ rest) st'.
Proof.
  induction rest as [|p rest IH]; intros visited st st' Hinv Hrun.
  - cbn in Hrun. injection Hrun as <-. now rewrite app_nil_r.
  - cbn [visit_peers] in Hrun.
    destruct (visit_peer fuel (network p) st) as [st1| |] eqn:Hstep;
      cbn [py.bind] in Hrun; try discriminate.
    replace (visited ++ p :: rest) with ((visited ++ [p]) ++ rest)
      by (now rewrite <- app_assoc).
    eapply IH; [|exact Hrun]. eapply visit_peer_resolved; eassumption.
Qed.

Lemma visit_peers_returns (fuel : nat) (network : string -> Exchange)
      (rest : list string) :
  forall st,
    (forall p, In p rest -> exists temp, init_default fuel (clock (network p)) = Return temp) ->
    exists st', visit_peers fuel network rest st = Return st'.
Proof.
  induction rest as [|p rest IH]; intros st Hfuel; cbn [visit_peers]; [eauto|].
  destruct (visit_peer_returns fuel (network p) st (Hfuel p (or_introl eq_refl)))
    as [st1 ->]. cbn [py.bind]. apply IH. intros q Hq. apply Hfuel. now right.
Qed.

Lemma visit_peers_no_raise (fuel : nat) (network : string -> Exchange)
      (rest : list string) (e : exception) :
  forall st, visit_peers fuel network rest st <> Raise e.
Proof.
  induction rest as [|p rest IH]; intros st; cbn [visit_peers]; [discriminate|].
  destruct (visit_peer fuel (network p) st) as [st1| |] eqn:Hstep; cbn [py.bind].
  - apply IH.
  - now apply visit_peer_no_raise in Hstep.
  - discriminate.
Qed.


(** C8. Whatever the peers answer and however [resolve_conflicts]
    ends, the pool of pending transactions, the difficulty and the
    mining reward of the local ledger are what they were (and so are
    the peers and the port of the node): nothing is purged from the
    pool when the chain is replaced. *)
Theorem resolve_conflicts_frame
        (fuel : nat) (network : string -> Exchange) (self : Node) :
  pending_transactions (blockchain (snd (resolve_conflicts fuel network self)))
  = pending_transactions (blockchain self) /\
  difficulty (blockchain (snd (resolve_conflicts fuel network self)))
  = difficulty (blockchain self) /\
  mining_reward (blockchain (snd (resolve_conflicts fuel network self)))
  = mining_reward (blockchain self) /\
  peers (snd (resolve_conflicts fuel network self)) = peers self /\
  port (snd (resolve_conflicts fuel network self)) = port self.
Proof.
  unfold resolve_conflicts.
  destruct (visit_peers fuel network (peers self) _) as [[[[|b c]|] ?]| |];
    repeat split; reflexivity.
Qed.

(** ** Admission of transactions *)

(** The pool grown by one transaction: the balance moves by one step. *)
Lemma get_balance_pending_snoc (self : Blockchain) (tx : Transaction) (address : string) :
  get_balance
    (set_pending_transactions self (pending_transactions self ++ [tx])) address
  = balance_step address (sender tx) (recipient tx) (amount tx)
                 (get_balance self address).
Proof.
  unfold get_balance. cbn [pending_transactions set_pending_transactions chain].
  now rewrite fold_left_app.
Qed.

Lemma add_transaction_cases (tx : Transaction) (self : Blockchain) :
  (inadmissible tx self /\ add_transaction tx self = (false, self)) \/
  (~ inadmissible tx self /\
   add_transaction tx self =
   (true, set_pending_transactions self (pending_transactions self ++ [tx]))).
Proof.
  unfold add_transaction, inadmissible.
  destruct (falsy (sender tx)) eqn:Hs; cbn [orb].
  { left. apply falsy_spec in Hs. auto. }
  destruct (falsy (recipient tx)) eqn:Hr; cbn [orb].
  { left. apply falsy_spec in Hr. auto. }
  destruct (is_valid tx) eqn:Hv; cbn [negb].
  2:{ left. auto. }
  assert (Hs' : sender tx <> EmptyString) by (rewrite <- falsy_spec; congruence).
  assert (Hr' : recipient tx <> EmptyString) by (rewrite <- falsy_spec; congruence).
  destruct (String.eqb_spec (sender tx) COINBASE) as [Hcb|Hcb]; cbn [negb andb].
  { right. split; [|reflexivity]. intros [[?|?]|[?|[? _]]]; congruence. }
  destruct (ltb (get_balance self (sender tx)) (amount tx)) eqn:Hlt.
  - left. apply ltb_spec in Hlt. auto.
  - right. split; [|reflexivity].
    intros [[?|?]|[?|[_ Hlow]]]; try congruence.
    apply ltb_spec in Hlow. congruence.
Qed.



(** ** Mining the pool *)

Lemma last_item_snoc {A : Type} (l : list A) (x : A) :
  last_item (l ++ [x]) = Return x.
Proof. unfold last_item. now rewrite rev_app_distr. Qed.

Lemma mined_leading_zeros (d : Z) (b : Block) :
  mined d b = true -> (d <= Z.of_nat (leading_zeros (hash b)))%Z.
Proof.
  intros Hm. destruct (Z.ltb_spec d 0) as [Hneg|Hpos]; [lia|].
  now apply mined_nonneg.
Qed.

(** C4, amended. On a ledger whose chain is not empty, and with
    enough fuel for the mining loop to end on a block [blk],
    [mine_pending_transactions] returns nothing ([None]); the block is
    the new last block of the chain. Its first transaction is the
    [COINBASE] reward for the miner, followed by the pool in its order;
    its index is the former length of the chain and its previous hash
    the stored hash of the former last block; its stored hash is the
    hash of its fields and has at least [difficulty] leading zeros; the
    pool is left empty. On an empty chain the call raises [IndexError]
    with the reward already in the pool. *)
Theorem mine_pending_transactions_spec
        (fuel : nat) (now : Q) (address : string) (self : Blockchain) :
  (chain self = [] ->
   mine_pending_transactions fuel now address self =
   (Raise IndexError,
    set_pending_transactions self (reward_tx self address :: pending_transactions self))) /\
  (forall latest blk,
      get_latest_block self = Return latest ->
      mine_block fuel (difficulty self)
                 (block.init (Z.of_nat (List.length (chain self)))
                             (batch self address) now (hash latest) 0)
      = Return blk ->
      mine_pending_transactions fuel now address self =
      (Return None,
       mkBlockchain (chain self ++ [blk]) (difficulty self) [] (mining_reward self)) /\
      get_latest_block (snd (mine_pending_transactions fuel now address self))
      = Return blk /\
      transactions blk =
      transaction.to_dict (reward_tx self address)
        :: map transaction.to_dict (pending_transactions self) /\
      index blk = Z.of_nat (List.length (chain self)) /\
      previous_hash blk = hash latest /\
      timestamp blk = now /\
      hash blk = block.calculate_hash blk /\
      (difficulty self <= Z.of_nat (leading_zeros (hash blk)))%Z).
Proof.
  split.
  - intros Hempty. unfold mine_pending_transactions, get_latest_block.
    cbn [chain set_pending_transactions]. rewrite Hempty. reflexivity.
  - intros latest blk Hlatest Hmine.
    assert (Hrun : mine_pending_transactions fuel now address self =
                   (Return None,
                    mkBlockchain (chain self ++ [blk]) (difficulty self) []
                                 (mining_reward self))).
    { unfold mine_pending_transactions.
      unfold get_latest_block in *. cbn [chain set_pending_transactions].
      rewrite Hlatest. unfold set_pending_transactions, set_chain.
      cbn [chain pending_transactions difficulty mining_reward].
      unfold batch, reward_tx in Hmine. rewrite Hmine. reflexivity. }
    rewrite Hrun. cbn [snd]. split; [reflexivity|].
    split; [unfold get_latest_block; cbn [chain]; apply last_item_snoc|].
    apply mine_block_inv in Hmine; [|reflexivity].
    destruct Hmine as (k & -> & Hmined & _).
    repeat split. now apply mined_leading_zeros.
Qed.

(** ** Saving and loading *)

Lemma transaction_from_to_dict (tx : Transaction) :
  transaction.from_dict (transaction.to_dict tx) = tx.
Proof. now destruct tx. Qed.

Lemma block_from_to_dict (b : Block) :
  block.from_dict (block.to_dict b) = b.
Proof. now destruct b. Qed.

Lemma map_from_to_dict {A B : Type} (f : A -> B) (g : B -> A) (l : list A) :
  (forall a, g (f a) = a) -> map g (map f l) = l.
Proof.
  intros Hgf. rewrite map_map. induction l as [|a l IH]; [reflexivity|].
  cbn [map]. now rewrite Hgf, IH.
Qed.


(** ** Ledgers built by the code *)

Lemma is_chain_valid_loop_ext (self self' : Blockchain) (indices : list nat) :
  chain self' = chain self -> difficulty self' = difficulty self ->
  is_chain_valid_loop self' indices = is_chain_valid_loop self indices.
Proof.
  intros Hc Hd. induction indices as [|i indices IH]; [reflexivity|].
  cbn [is_chain_valid_loop]. now rewrite Hc, Hd, IH.
Qed.

Lemma is_chain_valid_io_ext (self self' : Blockchain) :
  chain self' = chain self -> difficulty self' = difficulty self ->
  is_chain_valid_io self' = is_chain_valid_io self.
Proof.
  intros Hc Hd. unfold is_chain_valid_io. rewrite Hc.
  now apply is_chain_valid_loop_ext.
Qed.

Lemma is_chain_valid_iff_passes (self : Blockchain) :
  is_chain_valid self = Return true <->
  forall i, in_range self i -> passes_at self i.
Proof.
  unfold is_chain_valid, is_chain_valid_io. split.
  - intros Hrun i Hi.
    destruct (is_chain_valid_loop_spec self _ (range_in_range self))
      as [[_ Hall]|(? & ? & ? & ? & ? & line & _ & _ & _ & _ & _ & _ & Hrun')].
    + rewrite Forall_forall in Hall. apply Hall. unfold range, in_range in *.
      apply in_seq. lia.
    + rewrite Hrun' in Hrun. discriminate.
  - intros Hall.
    rewrite is_chain_valid_loop_pass; [reflexivity|apply range_in_range|].
    apply Forall_forall. intros i Hi. apply Hall.
    unfold range in Hi. apply in_seq in Hi. unfold in_range. lia.
Qed.

Lemma nth_error_snoc_last {A : Type} (l : list A) (x : A) :
  nth_error (l ++ [x]) (List.length l) = Some x.
Proof. rewrite nth_error_app2, Nat.sub_diag by lia. reflexivity. Qed.

(** One more block at the end: the old blocks pass as before, the new
    one has to pass against the former last block. *)
Lemma passes_at_snoc (self self' : Blockchain) (l : list Block) (last b : Block) :
  chain self = l ++ [last] ->
  chain self' = chain self ++ [b] ->
  difficulty self' = difficulty self ->
  (forall i, in_range self' i -> passes_at self' i) <->
  (forall i, in_range self i -> passes_at self i) /\
  passes (difficulty self) last b.
Proof.
  intros Hchain Hchain' Hd.
  assert (Hlen : List.length (chain self) = S (List.length l))
    by (rewrite Hchain, length_app; cbn; lia).
  assert (Hlen' : List.length (chain self') = S (S (List.length l)))
    by (rewrite Hchain', length_app, Hlen; cbn; lia).
  assert (Hold : forall j, j < List.length (chain self) ->
                           nth_error (chain self') j = nth_error (chain self) j).
  { intros j Hj. rewrite Hchain'. now apply nth_error_app1. }
  assert (Hnew : nth_error (chain self') (S (List.length l)) = Some b).
  { rewrite Hchain', <- Hlen. apply nth_error_snoc_last. }
  assert (Hlast : nth_error (chain self) (List.length l) = Some last).
  { rewrite Hchain. apply nth_error_snoc_last. }
  unfold in_range, passes_at. rewrite Hd. split.
  - intros Hall. split.
    + intros i Hi cur prev Hc Hp. apply (Hall i); [lia| |].
      * rewrite Hold by lia. exact Hc.
      * rewrite Hold by lia. exact Hp.
    + apply (Hall (S (List.length l))); [lia|exact Hnew|].
      cbn [Nat.sub]. rewrite Nat.sub_0_r, Hold by lia. exact Hlast.
  - intros [Hall Hpass] i Hi cur prev Hc Hp.
    destruct (Nat.eq_dec i (S (List.length l))) as [->|Hne].
    + cbn [Nat.sub] in Hp. rewrite Nat.sub_0_r, Hold in Hp by lia.
      rewrite Hnew in Hc. congruence.
    + rewrite Hold in Hc, Hp by lia. apply (Hall i); [lia|assumption..].
Qed.

Lemma init_genesis (fuel : nat) (now : Q) (d : Z) (r : Q) (self : Blockchain) :
  blockchain.init fuel now d r = Return self ->
  exists g,
    self = mkBlockchain [g] d [] r /\
    index g = 0%Z /\ transactions g = [] /\ previous_hash g = "0"%string /\
    timestamp g = now /\
    hash g = block.calculate_hash g /\
    (d <= Z.of_nat (leading_zeros (hash g)))%Z.
Proof.
  unfold blockchain.init, create_genesis_block. cbn [difficulty chain].
  destruct (mine_block fuel d _) as [g| |] eqn:Hmine; cbn [py.bind]; try discriminate.
  intros [= <-]. exists g. split; [reflexivity|].
  apply mine_block_inv in Hmine; [|reflexivity].
  destruct Hmine as (k & -> & Hmined & _).
  repeat split. now apply mined_leading_zeros.
Qed.

(** What a run of [mine_pending_transactions] that returns has done. *)
Lemma mine_pending_transactions_inv
      (fuel : nat) (now : Q) (address : string) (self self' : Blockchain)
      (v : option Block) :
  mine_pending_transactions fuel now address self = (Return v, self') ->
  exists l latest blk,
    chain self = l ++ [latest] /\
    mine_block fuel (difficulty self)
               (block.init (Z.of_nat (List.length (chain self)))
                           (batch self address) now (hash latest) 0)
    = Return blk /\
    v = None /\
    self' = mkBlockchain (chain self ++ [blk]) (difficulty self) []
                         (mining_reward self).
Proof.
  unfold mine_pending_transactions, get_latest_block, last_item.
  cbn [chain set_pending_transactions].
  destruct (rev (chain self)) as [|latest l] eqn:Hrev; [discriminate|].
  unfold set_pending_transactions, set_chain.
  cbn [chain pending_transactions difficulty mining_reward].
  fold (reward_tx self address). fold (batch self address).
  destruct (mine_block fuel (difficulty self) _) as [blk| |] eqn:Hmine;
    try discriminate.
  intros [= <- <-]. exists (rev l), latest, blk.
  split; [|auto].
  rewrite <- (rev_involutive (chain self)), Hrev. reflexivity.
Qed.

Lemma mined_block_passes (fuel : nat) (d : Z) (i : Z) (txs : list tx_dict)
      (now : Q) (latest blk : Block) :
  mine_block fuel d (block.init i txs now (hash latest) 0) = Return blk ->
  Forall (fun t => is_valid (transaction.from_dict t) = true) txs ->
  passes d latest blk /\ index blk = i /\ transactions blk = txs /\ timestamp blk = now.
Proof.
  intros Hmine Htxs. apply mine_block_inv in Hmine; [|reflexivity].
  destruct Hmine as (k & -> & Hmined & _).
  split; [|repeat split].
  split; [reflexivity|]. split; [reflexivity|].
  split; [now apply mined_leading_zeros|].
  intros t Ht. rewrite Forall_forall in Htxs. now apply Htxs.
Qed.

Lemma built_sound (ok : Transaction -> Prop) (self : Blockchain) :
  built ok self -> sound self.
Proof.
  induction 1 as [fuel now d r self Hinit
                 |tx self Hbuilt IH Hok
                 |fuel now address self self' Hbuilt IH Hmine].
  - destruct (init_genesis _ _ _ _ _ Hinit) as (g & -> & Hi & Ht & Hp & _).
    split; [discriminate|]. split; [|split; [constructor|]].
    + intros i [Hi1 Hi2]. cbn in Hi2. lia.
    + intros [|i] b Hb; cbn in Hb; [|destruct i; discriminate].
      injection Hb as <-. split; [assumption|]. now split.
  - destruct IH as (Hne & Hpass & Hpool & Hshape).
    destruct (add_transaction_cases tx self) as [[_ ->]|[Hadm ->]]; cbn [snd].
    + exact (conj Hne (conj Hpass (conj Hpool Hshape))).
    + split; [exact Hne|]. split; [exact Hpass|]. split; [|exact Hshape].
      cbn [pending_transactions set_pending_transactions].
      apply Forall_app. split; [assumption|]. constructor; [|constructor].
      destruct (is_valid tx) eqn:Hv; [reflexivity|].
      exfalso. apply Hadm. right; left. exact Hv.
  - destruct IH as (Hne & Hpass & Hpool & Hshape).
    destruct (mine_pending_transactions_inv _ _ _ _ _ _ Hmine)
      as (l & latest & blk & Hchain & Hblk & _ & ->).
    assert (Hbatch : Forall (fun t => is_valid (transaction.from_dict t) = true)
                            (batch self address)).
    { unfold batch. apply Forall_map. constructor; [reflexivity|].
      revert Hpool. apply Forall_impl. intros t Ht.
      now rewrite transaction_from_to_dict. }
    destruct (mined_block_passes _ _ _ _ _ _ _ Hblk Hbatch)
      as (Hnew & Hindex & Htxs & _).
    split; [cbn [chain]; intros Heq; now destruct (chain self)|].
    split; [|split; [constructor|]].
    + apply (passes_at_snoc
               self (mkBlockchain (chain self ++ [blk]) (difficulty self) []
                                  (mining_reward self))
               l latest blk Hchain eq_refl eq_refl).
      split; assumption.
    + cbn [chain mining_reward]. intros i b Hb.
      destruct (Nat.lt_ge_cases i (List.length (chain self))) as [Hlt|Hge].
      * rewrite nth_error_app1 in Hb by assumption. now apply Hshape.
      * rewrite nth_error_app2 in Hb by assumption.
        destruct (i - List.length (chain self)) as [|n] eqn:Hn;
          [|destruct n; discriminate].
        cbn in Hb. injection Hb as <-.
        assert (i = List.length (chain self)) as -> by lia.
        split; [exact Hindex|].
        destruct (List.length (chain self)) eqn:Hlen.
        { destruct (chain self); [contradiction|discriminate]. }
        rewrite Htxs. unfold batch. cbn [map]. eexists _, _. split; [reflexivity|].
        repeat split.
Qed.

(** X1. A ledger obtained from the constructor by calls of
    [add_transaction] and of [mine_pending_transactions] (those that
    return) passes [is_chain_valid] without a line printed; its chain is
    not empty, every transaction of its pool passes [is_valid], and
    mining on it never raises. *)
Theorem built_ledger_is_valid (ok : Transaction -> Prop) (self : Blockchain) :
  built ok self ->
  is_chain_valid self = Return true /\
  is_chain_valid_io self = Return (true, []) /\
  chain self <> [] /\
  Forall (fun tx => is_valid tx = true) (pending_transactions self) /\
  (forall fuel now address e,
      fst (mine_pending_transactions fuel now address self) <> Raise e).
Proof.
  intros Hbuilt. destruct (built_sound ok self Hbuilt) as (Hne & Hpass & Hpool & _).
  assert (Hio : is_chain_valid_io self = Return (true, [])).
  { unfold is_chain_valid_io. apply is_chain_valid_loop_pass; [apply range_in_range|].
    apply Forall_forall. intros i Hi. apply Hpass. unfold range in Hi.
    apply in_seq in Hi. unfold in_range. lia. }
  split; [unfold is_chain_valid; now rewrite Hio|].
  split; [exact Hio|]. split; [exact Hne|]. split; [exact Hpool|].
  intros fuel now address e. unfold mine_pending_transactions, get_latest_block, last_item.
  cbn [chain set_pending_transactions].
  destruct (rev (chain self)) as [|latest l] eqn:Hrev.
  { exfalso. apply Hne. rewrite <- (rev_involutive (chain self)), Hrev. reflexivity. }
  destruct (mine_block fuel _ _) as [blk| |] eqn:Hmine; cbn [fst]; try discriminate.
  now apply mine_block_no_raise in Hmine.
Qed.

(** X2. In such a ledger block [i] carries the index [i]; block 0 has
    no transaction and the previous hash ["0"]; every later block starts
    with a transaction from [COINBASE], unsigned, of the amount
    [mining_reward]. *)
Theorem built_ledger_shape (ok : Transaction -> Prop) (self : Blockchain) :
  built ok self ->
  forall i b,
    nth_error (chain self) i = Some b ->
    well_formed_block (mining_reward self) i b.
Proof. intros Hbuilt. apply (built_sound ok self Hbuilt). Qed.

(** ** Balances *)

Lemma fold_left_flat_map {A B C : Type} (f : A -> C -> A) (g : B -> list C)
      (l : list B) (a : A) :
  fold_left f (flat_map g l) a = fold_left (fun a b => fold_left f (g b) a) l a.
Proof.
  revert a. induction l as [|b l IH]; intros a; [reflexivity|].
  cbn [flat_map fold_left]. now rewrite fold_left_app, IH.
Qed.

Lemma fold_left_map_r {A B C : Type} (f : A -> C -> A) (g : B -> C)
      (l : list B) (a : A) :
  fold_left f (map g l) a = fold_left (fun a b => f a (g b)) l a.
Proof.
  revert a. induction l as [|b l IH]; intros a; [reflexivity|].
  cbn [map fold_left]. now rewrite IH.
Qed.

Lemma fold_left_ext_eq {A B : Type} (f g : A -> B -> A) (l : list B) (a : A) :
  (forall a b, f a b = g a b) -> fold_left f l a = fold_left g l a.
Proof.
  intros Hfg. revert a. induction l as [|b l IH]; intros a; [reflexivity|].
  cbn [fold_left]. now rewrite Hfg, IH.
Qed.

(** [get_balance] is the replay of the recorded transfers from 0. *)
Lemma get_balance_replay (self : Blockchain) (address : string) :
  get_balance self address = replay address (entries self) 0.
Proof.
  unfold get_balance, replay, entries.
  rewrite fold_left_app, fold_left_flat_map, fold_left_map_r. cbn [fst snd].
  f_equal. apply fold_left_ext_eq. intros a b.
  now rewrite fold_left_map_r.
Qed.

Lemma balance_step_delta (address s r : string) (amount balance : Q) :
  (balance_step address s r amount balance == balance + delta address s r amount)%Q.
Proof.
  unfold balance_step, delta.
  destruct (s =? address)%string, (r =? address)%string; ring.
Qed.

Lemma replay_shift (address : string) (es : list (string * string * Q)) (b : Q) :
  (replay address es b == replay address es 0 + b)%Q.
Proof.
  unfold replay. revert b. induction es as [|e es IH]; intros b; cbn [fold_left].
  - ring.
  - rewrite IH. rewrite (IH (balance_step _ _ _ _ 0)).
    rewrite !balance_step_delta. ring.
Qed.

Lemma replay_app (address : string) (es es' : list (string * string * Q)) (b : Q) :
  replay address (es ++ es') b = replay address es' (replay address es b).
Proof. unfold replay. apply fold_left_app. Qed.

Lemma entries_mined (self : Blockchain) (address : string) (blk : Block) :
  transactions blk = batch self address ->
  entries (mkBlockchain (chain self ++ [blk]) (difficulty self) [] (mining_reward self))
  = flat_map (fun b => map (fun t => (d_sender t, d_recipient t, d_amount t))
                           (transactions b))
             (chain self)
    ++ (COINBASE, address, mining_reward self)
    :: map (fun tx => (sender tx, recipient tx, amount tx)) (pending_transactions self).
Proof.
  intros Htxs. unfold entries. cbn [chain pending_transactions map].
  rewrite app_nil_r, flat_map_app. cbn [flat_map]. rewrite app_nil_r, Htxs.
  unfold batch, reward_tx. cbn [map transaction.to_dict d_sender d_recipient d_amount
                                 sender recipient amount].
  now rewrite map_map.
Qed.

(** Mining moves the pool into a block behind the reward: every balance
    moves by what the reward adds to it. *)
Lemma get_balance_mined
      (fuel : nat) (now : Q) (miner : string) (self self' : Blockchain)
      (v : option Block) (address : string) :
  mine_pending_transactions fuel now miner self = (Return v, self') ->
  (get_balance self' address
   == get_balance self address + delta address COINBASE miner (mining_reward self))%Q.
Proof.
  intros Hmine.
  destruct (mine_pending_transactions_inv _ _ _ _ _ _ Hmine)
    as (l & latest & blk & _ & Hblk & _ & ->).
  assert (Htxs : transactions blk = batch self miner).
  { apply mine_block_inv in Hblk; [|reflexivity].
    destruct Hblk as (k & -> & _). reflexivity. }
  rewrite !get_balance_replay, (entries_mined self miner blk Htxs).
  unfold entries. rewrite !replay_app.
  set (B := replay address (flat_map _ (chain self)) 0).
  set (pool := map _ (pending_transactions self)).
  change (replay address ((COINBASE, miner, mining_reward self) :: pool) B)
    with (replay address pool
                 (balance_step address COINBASE miner (mining_reward self) B)).
  rewrite (replay_shift address pool (balance_step _ _ _ _ B)).
  rewrite (replay_shift address pool B).
  rewrite balance_step_delta. ring.
Qed.


Lemma add_transaction_mining_reward (self : Blockchain) (tx : Transaction) :
  mining_reward (snd (add_transaction tx self)) = mining_reward self.
Proof.
  destruct (add_transaction_cases tx self) as [[_ ->]|[_ ->]]; reflexivity.
Qed.


Lemma replay_uninvolved (address : string) (es : list (string * string * Q)) (b : Q) :
  (forall s r a, In (s, r, a) es -> s <> address /\ r <> address) ->
  replay address es b = b.
Proof.
  unfold replay. revert b. induction es as [|[[s r] a] es IH]; intros b Hes;
    [reflexivity|].
  cbn [fold_left fst snd]. destruct (Hes s r a (or_introl eq_refl)) as [Hs Hr].
  apply String.eqb_neq in Hs, Hr. unfold balance_step. rewrite Hs, Hr.
  apply IH. intros s' r' a' Hin. apply (Hes s' r' a'). now right.
Qed.

(** X5. An address that is neither the sender nor the recipient of any
    transfer recorded in the chain or in the pool has the balance 0
    exactly; and whatever [add_transaction] answers, it leaves the
    balance of every address other than the sender and the recipient of
    its transaction as it was. *)
Theorem balance_of_a_bystander (self : Blockchain) (address : string) :
  ((forall s r a, In (s, r, a) (entries self) -> s <> address /\ r <> address) ->
   get_balance self address = 0%Q) /\
  (forall tx, sender tx <> address -> recipient tx <> address ->
              get_balance (snd (add_transaction tx self)) address
              = get_balance self address).
Proof.
  split.
  - intros Hes. rewrite get_balance_replay. now apply replay_uninvolved.
  - intros tx Hs Hr.
    destruct (add_transaction_cases tx self) as [[_ ->]|[_ ->]]; cbn [snd];
      [reflexivity|].
    rewrite get_balance_pending_snoc. unfold balance_step.
    apply String.eqb_neq in Hs, Hr. now rewrite Hs, Hr.
Qed.

Lemma total_cons (f : string -> Q) (a : string) (l : list string) :
  total f (a :: l) = (f a + total f l)%Q.
Proof. reflexivity. Qed.

Lemma total_ext (f g : string -> Q) (addresses : list string) :
  (forall a, (f a == g a)%Q) -> (total f addresses == total g addresses)%Q.
Proof.
  intros Hfg. induction addresses as [|a l IH]; [reflexivity|].
  now rewrite !total_cons, Hfg, IH.
Qed.

Lemma total_plus (f g : string -> Q) (addresses : list string) :
  (total (fun a => f a + g a) addresses == total f addresses + total g addresses)%Q.
Proof.
  induction addresses as [|a l IH]; [reflexivity|].
  rewrite !total_cons, IH. ring.
Qed.

(** Over addresses without repetition, an amount counted at one address
    is counted once if the address is listed, and not at all otherwise. *)
Lemma total_indicator (x : string) (amount : Q) (addresses : list string) :
  NoDup addresses ->
  (total (fun a => if (x =? a)%string then amount else 0) addresses
   == if in_dec string_dec x addresses then amount else 0)%Q.
Proof.
  induction 1 as [|a l Hnotin Hnodup IH]; [reflexivity|].
  rewrite total_cons, IH.
  destruct (String.eqb_spec x a) as [->|Hne].
  - destruct (in_dec string_dec a l) as [Hin|_]; [contradiction|].
    destruct (in_dec string_dec a (a :: l)) as [_|Hout]; [ring|].
    exfalso. apply Hout. now left.
  - destruct (in_dec string_dec x l) as [Hin|Hout];
      destruct (in_dec string_dec x (a :: l)) as [Hin'|Hout']; try ring.
    + exfalso. apply Hout'. now right.
    + destruct Hin' as [Heq|Hin']; [congruence|contradiction].
Qed.

Lemma total_delta (s r : string) (amount : Q) (addresses : list string) :
  NoDup addresses -> In s addresses -> In r addresses ->
  (total (fun a => delta a s r amount) addresses == 0)%Q.
Proof.
  intros Hnodup Hs Hr. unfold delta.
  rewrite (total_ext _ (fun a => (if (r =? a)%string then amount else 0)
                                 + (if (s =? a)%string then - amount else 0))%Q).
  2:{ intros a. destruct (r =? a)%string, (s =? a)%string; ring. }
  rewrite total_plus, !total_indicator by assumption.
  destruct (in_dec string_dec r addresses); [|contradiction].
  destruct (in_dec string_dec s addresses); [|contradiction]. ring.
Qed.

Lemma total_replay (es : list (string * string * Q)) (addresses : list string) :
  NoDup addresses ->
  (forall s r a, In (s, r, a) es -> In s addresses /\ In r addresses) ->
  (total (fun a => replay a es 0) addresses == 0)%Q.
Proof.
  intros Hnodup. induction es as [|[[s r] amount] es IH] using rev_ind; intros Hes.
  - clear. induction addresses as [|a l IHl]; [reflexivity|].
    rewrite total_cons, IHl. unfold replay. cbn [fold_left]. ring.
  - rewrite (total_ext _ (fun a => replay a es 0 + delta a s r amount)%Q).
    2:{ intros a. rewrite replay_app. unfold replay at 1. cbn [fold_left fst snd].
        apply balance_step_delta. }
    assert (Hlast : In s addresses /\ In r addresses).
    { apply (Hes s r amount). apply in_or_app. right. now left. }
    rewrite total_plus, IH, total_delta; try tauto; [ring|].
    intros s' r' a' Hin. apply (Hes s' r' a'). apply in_or_app. now left.
Qed.


(** X7. No replay protection. A transaction that was admitted is
    admitted once more, and stands twice in the pool, whenever its
    sender is [COINBASE] or the balance of its sender still covers its
    amount; nothing in [add_transaction] looks for a transaction already
    pooled or mined. *)
Theorem admitted_transaction_can_be_replayed (tx : Transaction) (self : Blockchain) :
  fst (add_transaction tx self) = true ->
  (sender tx = COINBASE \/
   (amount tx <= get_balance (snd (add_transaction tx self)) (sender tx))%Q) ->
  add_transaction tx (snd (add_transaction tx self)) =
  (true, set_pending_transactions self (pending_transactions self ++ [tx; tx])).
Proof.
  intros Hfirst Hcover.
  destruct (add_transaction_cases tx self) as [[_ Hrej]|[Hadm Hacc]];
    rewrite ?Hrej, ?Hacc in *; cbn [fst snd] in *; [discriminate|].
  set (self1 := set_pending_transactions self (pending_transactions self ++ [tx])) in *.
  destruct (add_transaction_cases tx self1) as [[Hbad _]|[_ ->]].
  - exfalso. destruct Hbad as [Hempty|[Hinvalid|[Hcb Hlow]]].
    + apply Hadm. now left.
    + apply Hadm. right. now left.
    + destruct Hcover as [?|Hcover]; [contradiction|].
      apply Qlt_not_le in Hlow. contradiction.
  - unfold self1, set_pending_transactions. cbn [chain difficulty pending_transactions
                                                  mining_reward].
    now rewrite <- app_assoc.
Qed.

(** ** When mining ends *)

Lemma iter_mine_step (b : Block) (k : nat) :
  hash b = block.calculate_hash b ->
  Nat.iter k mine_step b = with_nonce b (nonce b + Z.of_nat k).
Proof.
  intros Hb. induction k as [|k IH].
  - cbn [Nat.iter]. now rewrite Z.add_0_r, with_nonce_self.
  - rewrite Nat.iter_succ, IH, mine_step_with_nonce, with_nonce_with_nonce.
    f_equal. cbn [nonce with_nonce block.init set_hash]. lia.
Qed.

Lemma leading_zeros_le_length (s : string) : leading_zeros s <= String.length s.
Proof.
  induction s as [|c s IH]; cbn; [lia|]. destruct (c =? "0")%char; lia.
Qed.

Lemma mine_step_hash_length (b : Block) : String.length (hash (mine_step b)) = 64.
Proof. apply sha256_hexdigest_length. Qed.

(** A guard that fails on every hash of 64 characters keeps the loop
    running. *)
Lemma mine_block_out_of_fuel (d : Z) (fuel : nat) :
  (forall b, String.length (hash b) = 64 -> mined d b = false) ->
  forall b, String.length (hash b) = 64 -> mine_block fuel d b = OutOfFuel.
Proof.
  intros Hguard. induction fuel as [|fuel IH]; intros b Hlen; cbn [mine_block];
    rewrite (Hguard b Hlen); [reflexivity|].
  apply IH. apply mine_step_hash_length.
Qed.

Lemma mined_false_out_of_range (d : Z) (b : Block) :
  String.length (hash b) = 64 ->
  (64 < d \/ -64 < d < 0)%Z ->
  mined d b = false.
Proof.
  intros Hlen Hd. destruct (mined d b) eqn:Hm; [exfalso|reflexivity].
  destruct (Z.ltb_spec d 0) as [Hneg|Hpos].
  - apply (mined_neg d b Hneg Hlen) in Hm. lia.
  - apply (mined_nonneg d b Hpos) in Hm.
    pose proof (leading_zeros_le_length (hash b)). lia.
Qed.

(** X8. For a block whose stored hash is the hash of its fields,
    [mine_block] returns (given fuel enough) exactly when some nonce from
    the current one on gives a hash that passes the guard of the loop; a
    run that has returned returns the same block with any larger fuel. *)
Theorem mine_block_returns_iff (d : Z) (b : Block) :
  hash b = block.calculate_hash b ->
  ((exists fuel b', mine_block fuel d b = Return b') <->
   (exists n, (nonce b <= n)%Z /\ mined d (with_nonce b n) = true)) /\
  (forall fuel fuel' b',
      mine_block fuel d b = Return b' -> fuel <= fuel' ->
      mine_block fuel' d b = Return b').
Proof.
  intros Hb. split; [split|].
  - intros (fuel & b' & Hrun).
    destruct (mine_block_inv d fuel b b' Hb Hrun) as (k & -> & Hmined & _).
    exists (nonce b + Z.of_nat k)%Z. split; [lia|exact Hmined].
  - intros (n & Hn & Hmined).
    exists (Z.to_nat (n - nonce b)).
    apply (mine_block_terminates d (Z.to_nat (n - nonce b))); [|lia].
    rewrite iter_mine_step by assumption.
    replace (nonce b + Z.of_nat (Z.to_nat (n - nonce b)))%Z with n by lia.
    exact Hmined.
  - clear Hb. intros fuel. revert b.
    induction fuel as [|fuel IH]; intros b fuel' b' Hrun Hle; cbn [mine_block] in Hrun.
    + destruct (mined d b) eqn:Hm; [|discriminate].
      destruct fuel'; cbn [mine_block]; now rewrite Hm.
    + destruct (mined d b) eqn:Hm.
      * destruct fuel'; cbn [mine_block]; now rewrite Hm.
      * destruct fuel' as [|fuel']; [lia|]. cbn [mine_block]. rewrite Hm.
        apply IH; [assumption|lia].
Qed.

(** X9. On a block whose stored hash has 64 characters, [mine_block]
    never returns when the difficulty is above 64 or between -63 and -1,
    and returns the block untouched, whatever its hash, when the
    difficulty is 0 or at most -64. The constructor of a ledger with a
    difficulty of the first kind never returns either. *)
Theorem mine_block_out_of_range (d : Z) (b : Block) :
  String.length (hash b) = 64 ->
  ((64 < d \/ -64 < d < 0)%Z ->
   (forall fuel, mine_block fuel d b = OutOfFuel) /\
   (forall fuel now r, blockchain.init fuel now d r = OutOfFuel)) /\
  ((d = 0 \/ d <= -64)%Z -> forall fuel, mine_block fuel d b = Return b).
Proof.
  intros Hlen. split.
  - intros Hd.
    assert (Hguard : forall b', String.length (hash b') = 64 -> mined d b' = false).
    { intros b' Hlen'. now apply mined_false_out_of_range. }
    split.
    + intros fuel. now apply mine_block_out_of_fuel.
    + intros fuel now r. unfold blockchain.init, create_genesis_block.
      cbn [difficulty]. rewrite mine_block_out_of_fuel; [reflexivity|assumption|].
      apply sha256_hexdigest_length.
  - intros Hd fuel.
    assert (Hm : mined d b = true).
    { destruct Hd as [->|Hd]; [reflexivity|].
      apply mined_neg; [lia|assumption|assumption]. }
    destruct fuel; cbn [mine_block]; now rewrite Hm.
Qed.

(** ** More on consensus *)

(** A peer visited once is passed over when visited again with a
    threshold at least as high as the one the first visit left. *)
Lemma visit_peer_again (fuel : nat) (x : Exchange)
      (nc nc1 : option (list Block)) (m m1 M : nat) :
  visit_peer fuel x (nc, m) = Return (nc1, m1) ->
  m1 <= M ->
  m <= m1 /\ visit_peer fuel x (None, M) = Return (None, M).
Proof.
  unfold visit_peer. destruct (response x) as [|status_code data].
  { intros [= <- <-] HM. auto. }
  destruct (status_code =? 200)%Z; [|intros [= <- <-] HM; auto].
  destruct (Nat.ltb_spec m (List.length (d_chain data))) as [Hlt|Hge].
  2:{ intros [= <- <-] HM. split; [lia|].
      destruct (Nat.ltb_spec M (List.length (d_chain data))); [lia|reflexivity]. }
  destruct (init_default fuel (clock x)) as [temp| |]; cbn [py.bind]; try discriminate.
  destruct (is_chain_valid (set_chain temp _)) as [[|]| |]; cbn [py.bind];
    try discriminate; intros [= <- <-] HM.
  - split; [lia|].
    destruct (Nat.ltb_spec M (List.length (d_chain data))); [lia|reflexivity].
  - split; [lia|].
    destruct (Nat.ltb_spec M (List.length (d_chain data))); reflexivity.
Qed.

Lemma visit_peers_again (fuel : nat) (network : string -> Exchange)
      (ps : list string) :
  forall nc m nc1 m1 M,
    visit_peers fuel network ps (nc, m) = Return (nc1, m1) ->
    m1 <= M ->
    m <= m1 /\ visit_peers fuel network ps (None, M) = Return (None, M).
Proof.
  induction ps as [|p ps IH]; intros nc m nc1 m1 M Hrun HM; cbn [visit_peers] in *.
  - injection Hrun as <- <-. auto.
  - destruct (visit_peer fuel (network p) (nc, m)) as [[nc2 m2]| |] eqn:Hstep;
      cbn [py.bind] in Hrun; try discriminate.
    destruct (IH _ _ _ _ M Hrun HM) as [Hle Hrest].
    destruct (visit_peer_again _ _ _ _ _ _ M Hstep ltac:(lia)) as [Hle' ->].
    cbn [py.bind]. split; [lia|exact Hrest].
Qed.

(** What a run of [resolve_conflicts] that returns leaves behind, in
    terms of the two loop variables. *)
Lemma resolve_conflicts_inv (fuel : nat) (network : string -> Exchange)
      (self self1 : Node) (b : bool) :
  resolve_conflicts fuel network self = (Return b, self1) ->
  exists nc m,
    visit_peers fuel network (peers self)
                (None, List.length (chain (blockchain self))) = Return (nc, m) /\
    resolved network (List.length (chain (blockchain self))) (peers self) (nc, m) /\
    ((b = true /\ exists c, nc = Some c /\
                            self1 = set_blockchain self (set_chain (blockchain self) c)) \/
     (b = false /\ nc = None /\ self1 = self)).
Proof.
  unfold resolve_conflicts.
  destruct (visit_peers fuel network (peers self) _) as [[nc m]| |] eqn:Hrun;
    try discriminate.
  assert (Hres : resolved network (List.length (chain (blockchain self)))
                          (peers self) (nc, m)).
  { apply (visit_peers_resolved
             fuel network (List.length (chain (blockchain self))) (peers self) []
             (None, List.length (chain (blockchain self))) (nc, m)); [|exact Hrun].
    split; [reflexivity|]. intros q c []. }
  intros Hout. exists nc, m. split; [reflexivity|]. split; [exact Hres|].
  destruct nc as [[|blk c]|].
  - destruct Hres as (_ & Hlen & _). cbn in Hlen. lia.
  - injection Hout as <- <-. left. split; [reflexivity|]. eauto.
  - injection Hout as <- <-. right. auto.
Qed.

(** After the loop no peer offers a valid chain longer than the
    threshold the loop ended with. *)
Lemma resolved_bound (network : string -> Exchange) (L : nat) (ps : list string)
      (nc : option (list Block)) (m : nat) :
  resolved network L ps (nc, m) ->
  L <= m /\
  forall q c, In q ps -> candidate (network q) = Some c -> scratch_valid c ->
              List.length c <= m.
Proof.
  unfold resolved. cbn [fst snd]. destruct nc as [c0|].
  - intros (-> & Hl & _ & before & p & after & -> & Hp & Hb & Ha).
    split; [lia|]. intros q c Hq Hc Hv. apply in_app_or in Hq.
    destruct Hq as [Hq|[<-|Hq]].
    + specialize (Hb q c Hq Hc Hv). lia.
    + rewrite Hp in Hc. injection Hc as <-. lia.
    + exact (Ha q c Hq Hc Hv).
  - intros (-> & Hall). split; [lia|exact Hall].
Qed.

(** X10. Right after a run of [resolve_conflicts] that returned, a
    second run on the same answers of the peers returns [False] and
    changes nothing, whatever the clock shows and the fuel is, if it
    returns at all; and it does return on the fuel and clock readings
    of the first run. The chain kept by the first run is already the
    longest valid one. *)
Theorem resolve_conflicts_settles (fuel : nat) (network : string -> Exchange)
        (self self1 : Node) (b : bool) :
  resolve_conflicts fuel network self = (Return b, self1) ->
  resolve_conflicts fuel network self1 = (Return false, self1) /\
  (forall fuel' network' b' self2,
      (forall p, response (network' p) = response (network p)) ->
      resolve_conflicts fuel' network' self1 = (Return b', self2) ->
      b' = false /\ self2 = self1).
Proof.
  intros Hrun.
  destruct (resolve_conflicts_inv _ _ _ _ _ Hrun) as (nc & m & Hloop & Hres & Hout).
  destruct (resolved_bound _ _ _ _ _ Hres) as [HLm Hbound].
  assert (Hkept : peers self1 = peers self /\
                  List.length (chain (blockchain self1)) = m).
  { destruct Hout as [(_ & c & -> & ->)|(_ & -> & ->)].
    - destruct Hres as (Hm & _). cbn [fst snd] in Hm. split; [reflexivity|].
      cbn [blockchain set_blockchain chain set_chain]. now rewrite Hm.
    - destruct Hres as (Hm & _). cbn [fst snd] in Hm. auto. }
  destruct Hkept as [Hpeers Hlen].
  split.
  - destruct (visit_peers_again _ _ _ _ _ _ _ m Hloop (le_n m)) as [_ Hagain].
    unfold resolve_conflicts. now rewrite Hpeers, Hlen, Hagain.
  - intros fuel' network' b' self2 Hsame Hrun'.
    destruct (resolve_conflicts_inv _ _ _ _ _ Hrun')
      as (nc' & m' & _ & Hres' & [(-> & c & -> & ->)|(-> & -> & ->)]);
      [exfalso|auto].
    destruct Hres' as (_ & Hlonger & Hvalid & before & p & after & Hps & Hp & _).
    assert (Hin : In p (peers self)).
    { rewrite <- Hpeers, Hps. apply in_elt. }
    assert (Hcand : candidate (network p) = Some c).
    { unfold candidate in *. now rewrite <- Hsame. }
    specialize (Hbound p c Hin Hcand Hvalid). lia.
Qed.

(** X11. The order in which the peers are visited (the iteration order
    of a set) decides neither the answer nor the length of the chain
    kept: two runs over the same peers in different orders, from the
    same ledger, agree on both. *)
Theorem resolve_conflicts_order (fuel : nat) (network : string -> Exchange)
        (self self' self1 self1' : Node) (b b' : bool) :
  blockchain self' = blockchain self ->
  (forall p, In p (peers self) <-> In p (peers self')) ->
  resolve_conflicts fuel network self = (Return b, self1) ->
  resolve_conflicts fuel network self' = (Return b', self1') ->
  b = b' /\
  List.length (chain (blockchain self1)) = List.length (chain (blockchain self1')).
Proof.
  intros Hledger Hpeers Hrun Hrun'.
  destruct (resolve_conflicts_inv _ _ _ _ _ Hrun)
    as (nc & m & _ & Hres & Hout).
  destruct (resolve_conflicts_inv _ _ _ _ _ Hrun')
    as (nc' & m' & _ & Hres' & Hout').
  rewrite Hledger in Hres'.
  set (L := List.length (chain (blockchain self))) in *.
  (* every valid chain offered is at most as long as the one kept *)
  assert (Hmax : forall c0, nc = Some c0 ->
             forall q c, In q (peers self) -> candidate (network q) = Some c ->
                         scratch_valid c -> List.length c <= List.length c0).
  { intros c0 ->. destruct Hres as (_ & _ & _ & before & p & after & Hps & Hp & Hb & Ha).
    intros q c Hq Hc Hv. rewrite Hps in Hq. apply in_app_or in Hq.
    destruct Hq as [Hq|[<-|Hq]].
    - specialize (Hb q c Hq Hc Hv). lia.
    - rewrite Hp in Hc. injection Hc as <-. lia.
    - exact (Ha q c Hq Hc Hv). }
  assert (Hmax' : forall c0, nc' = Some c0 ->
             forall q c, In q (peers self') -> candidate (network q) = Some c ->
                         scratch_valid c -> List.length c <= List.length c0).
  { intros c0 ->. destruct Hres' as (_ & _ & _ & before & p & after & Hps & Hp & Hb & Ha).
    intros q c Hq Hc Hv. rewrite Hps in Hq. apply in_app_or in Hq.
    destruct Hq as [Hq|[<-|Hq]].
    - specialize (Hb q c Hq Hc Hv). lia.
    - rewrite Hp in Hc. injection Hc as <-. lia.
    - exact (Ha q c Hq Hc Hv). }
  (* the chain kept is itself a valid chain offered by a peer *)
  assert (Hown : forall c0, nc = Some c0 ->
             L < List.length c0 /\
             exists p, In p (peers self) /\ candidate (network p) = Some c0 /\
                       scratch_valid c0).
  { intros c0 ->. destruct Hres as (_ & Hl & Hv & before & p & after & Hps & Hp & _).
    split; [exact Hl|]. exists p. rewrite Hps. split; [apply in_elt|auto]. }
  assert (Hown' : forall c0, nc' = Some c0 ->
             L < List.length c0 /\
             exists p, In p (peers self') /\ candidate (network p) = Some c0 /\
                       scratch_valid c0).
  { intros c0 ->. destruct Hres' as (_ & Hl & Hv & before & p & after & Hps & Hp & _).
    split; [exact Hl|]. exists p. rewrite Hps. split; [apply in_elt|auto]. }
  destruct Hout as [(-> & c & Hnc & ->)|(-> & Hnc & ->)];
    destruct Hout' as [(-> & c' & Hnc' & ->)|(-> & Hnc' & ->)];
    cbn [blockchain set_blockchain chain set_chain].
  - split; [reflexivity|].
    destruct (Hown c Hnc) as (_ & p & Hp & Hpc & Hpv).
    destruct (Hown' c' Hnc') as (_ & p' & Hp' & Hpc' & Hpv').
    pose proof (Hmax c Hnc p' c' (proj2 (Hpeers p') Hp') Hpc' Hpv').
    pose proof (Hmax' c' Hnc' p c (proj1 (Hpeers p) Hp) Hpc Hpv). lia.
  - exfalso. destruct (Hown c Hnc) as (Hl & p & Hp & Hpc & Hpv).
    subst nc'. destruct Hres' as (_ & Hall).
    specialize (Hall p c (proj1 (Hpeers p) Hp) Hpc Hpv). lia.
  - exfalso. destruct (Hown' c' Hnc') as (Hl & p & Hp & Hpc & Hpv).
    subst nc. destruct Hres as (_ & Hall).
    specialize (Hall p c' (proj2 (Hpeers p) Hp) Hpc Hpv). lia.
  - split; [reflexivity|]. now rewrite Hledger.
Qed.

Lemma passes_weaken (d d' : Z) (prev cur : Block) :
  (d' <= d)%Z -> passes d prev cur -> passes d' prev cur.
Proof.
  intros Hd (Ha & Hb & Hc & Hd'). unfold passes, work_ok in *.
  repeat split; try assumption. lia.
Qed.

(** X12. The scratch ledger validates at the default difficulty 4. So
    for a node whose ledger has a difficulty of at most 4 (4 for a node
    as [Node()] builds it), the chain that a run of [resolve_conflicts]
    installs passes the node's own [is_chain_valid]. *)
Theorem resolve_conflicts_installs_valid_chain
        (fuel : nat) (network : string -> Exchange) (self self1 : Node) :
  (difficulty (blockchain self) <= 4)%Z ->
  resolve_conflicts fuel network self = (Return true, self1) ->
  is_chain_valid (blockchain self1) = Return true.
Proof.
  intros Hd Hrun.
  destruct (resolve_conflicts_inv _ _ _ _ _ Hrun)
    as (nc & m & _ & Hres & [(_ & c & -> & ->)|(Hfalse & _)]); [|discriminate].
  destruct Hres as (_ & _ & Hvalid & _). unfold scratch_valid in Hvalid.
  pose proof (proj1 (is_chain_valid_iff_passes (scratch c)) Hvalid) as Hall.
  apply is_chain_valid_iff_passes.
  intros i Hi cur prev Hc Hp.
  cbn [blockchain set_blockchain chain set_chain difficulty] in *.
  apply (passes_weaken 4); [assumption|].
  exact (Hall i Hi cur prev Hc Hp).
Qed.

(** ** Validity block by block *)

(** X13. A chain with one more block at its end is valid exactly when
    the chain was valid and the new block passes the four checks against
    the former last block; and every chain cut off after a number of
    blocks of a valid chain is valid. *)
Theorem is_chain_valid_block_by_block (self : Blockchain) :
  (forall l last b,
      chain self = l ++ [last] ->
      (is_chain_valid (set_chain self (chain self ++ [b])) = Return true <->
       is_chain_valid self = Return true /\ passes (difficulty self) last b)) /\
  (forall n,
      is_chain_valid self = Return true ->
      is_chain_valid (set_chain self (firstn n (chain self))) = Return true).
Proof.
  split.
  - intros l last b Hchain.
    rewrite !is_chain_valid_iff_passes.
    apply (passes_at_snoc self (set_chain self (chain self ++ [b])) l last b Hchain);
      reflexivity.
  - intros n Hvalid. rewrite is_chain_valid_iff_passes in *.
    intros i [Hi1 Hi2] cur prev Hc Hp.
    cbn [chain set_chain difficulty] in *.
    rewrite nth_error_firstn in Hc, Hp.
    destruct (Nat.ltb_spec i n) as [Hin|]; [|discriminate].
    destruct (Nat.ltb_spec (i - 1) n) as [_|]; [|discriminate].
    apply (Hvalid i); [|assumption..].
    split; [assumption|]. apply nth_error_Some. congruence.
Qed.

(** ** The routes *)

Lemma set_blockchain_same (self : Node) : set_blockchain self (blockchain self) = self.
Proof. now destruct self. Qed.


(** X15. [POST /mine] answers 400 and leaves the node alone when the
    address is absent or empty. Otherwise, on a ledger with a last block
    and with fuel for the mining loop, it answers 200 with the
    dictionary of the block just mined, which is the last block of the
    node's chain; on a ledger the code built it never raises. *)
Theorem mine_route (fuel : nat) (now : Q) (self : Node) :
  api.mine fuel now None self = (Return (api.Message 400 "Miner address required"), self) /\
  api.mine fuel now (Some EmptyString) self
  = (Return (api.Message 400 "Miner address required"), self) /\
  (forall address latest blk,
      address <> EmptyString ->
      get_latest_block (blockchain self) = Return latest ->
      mine_block fuel (difficulty (blockchain self))
                 (block.init (Z.of_nat (List.length (chain (blockchain self))))
                             (batch (blockchain self) address) now (hash latest) 0)
      = Return blk ->
      api.mine fuel now (Some address) self =
      (Return (api.MinedBlock 200 "Block mined successfully" (block.to_dict blk)),
       set_blockchain
         self
         (mkBlockchain (chain (blockchain self) ++ [blk]) (difficulty (blockchain self))
                       [] (mining_reward (blockchain self)))) /\
      d_index (block.to_dict blk) = Z.of_nat (List.length (chain (blockchain self))) /\
      d_previous_hash (block.to_dict blk) = hash latest /\
      exists rest,
        d_transactions (block.to_dict blk)
        = transaction.to_dict (reward_tx (blockchain self) address) :: rest) /\
  (forall ok address e,
      built ok (blockchain self) ->
      fst (api.mine fuel now address self) <> Raise e).
Proof.
  split; [reflexivity|]. split; [reflexivity|]. split.
  - intros address latest blk Haddr Hlatest Hmine.
    pose proof Hmine as Hblk. apply mine_block_inv in Hblk; [|reflexivity].
    destruct Hblk as (k & Hblk & _).
    split; [|rewrite Hblk; repeat split; eexists; reflexivity].
    unfold api.mine. rewrite (falsy_false _ Haddr).
    unfold mine_pending_transactions.
    unfold get_latest_block in *. cbn [chain set_pending_transactions].
    rewrite Hlatest. unfold set_pending_transactions, set_chain.
    cbn [chain pending_transactions difficulty mining_reward].
    unfold batch, reward_tx in Hmine. rewrite Hmine.
    cbn [blockchain set_blockchain chain]. unfold get_latest_block.
    cbn [chain]. now rewrite last_item_snoc.
  - intros ok address e Hbuilt. unfold api.mine.
    destruct address as [address|]; [|discriminate].
    destruct (falsy address); [discriminate|].
    destruct (mine_pending_transactions fuel now address (blockchain self))
      as [[v| |] ledger] eqn:Hrun; cbn [fst]; try discriminate.
    + destruct (mine_pending_transactions_inv _ _ _ _ _ _ Hrun)
        as (l & latest & blk & _ & _ & _ & ->).
      cbn [blockchain set_blockchain]. unfold get_latest_block. cbn [chain].
      rewrite last_item_snoc. discriminate.
    + destruct (built_sound ok _ Hbuilt) as (Hne & _).
      exfalso. revert Hrun.
      unfold mine_pending_transactions, get_latest_block, last_item.
      cbn [chain set_pending_transactions].
      destruct (rev (chain (blockchain self))) as [|latest l] eqn:Hrev.
      { exfalso. apply Hne. rewrite <- (rev_involutive (chain (blockchain self))), Hrev.
        reflexivity. }
      destruct (mine_block fuel _ _) as [blk| |] eqn:Hmine; try discriminate.
      now apply mine_block_no_raise in Hmine.
Qed.

(** X16. [GET /consensus], when it replies, replies 200 with the
    dictionary of the node's ledger as the run left it; the message is
    "Chain was replaced" exactly when the chain in the reply is longer
    than the chain the node had. *)
Theorem consensus_route (fuel : nat) (network : string -> Exchange)
        (self self' : Node) (reply : api.Reply) :
  api.consensus fuel network self = (Return reply, self') ->
  exists message,
    reply = api.ChainReply 200 message (blockchain.to_dict (blockchain self')) /\
    (message = "Chain was replaced"%string \/ message = "Chain is authoritative"%string) /\
    (message = "Chain was replaced"%string <->
     List.length (chain (blockchain self)) < List.length (chain (blockchain self'))) /\
    (message = "Chain is authoritative"%string -> self' = self).
Proof.
  unfold api.consensus.
  destruct (resolve_conflicts fuel network self) as [[replaced| |] self1] eqn:Hrun;
    try discriminate.
  destruct (resolve_conflicts_inv _ _ _ _ _ Hrun)
    as (nc & m & _ & Hres & [(-> & c & -> & ->)|(-> & -> & ->)]);
    intros [= <- <-]; eexists; (split; [reflexivity|]).
  - destruct Hres as (_ & Hlen & _).
    split; [now left|]. split; [tauto|discriminate].
  - split; [now right|]. split; [|reflexivity].
    split; [discriminate|lia].
Qed.

(** ** Loading any file *)

Lemma transaction_to_from_dict (d : tx_dict) :
  transaction.to_dict (transaction.from_dict d) = d.
Proof. now destruct d. Qed.

Lemma block_to_from_dict (d : block_dict) :
  block.to_dict (block.from_dict d) = d.
Proof. now destruct d. Qed.


(** ** Tampering *)

Lemma replace_block_nth (i j : nat) (b : Block) (c : list Block) :
  i < List.length c ->
  nth_error (replace_block i b c) j
  = if (j =? i)%nat then Some b else nth_error c j.
Proof.
  intros Hi. unfold replace_block.
  assert (Hlen : List.length (firstn i c) = i) by (rewrite length_firstn; lia).
  destruct (Nat.eqb_spec j i) as [->|Hne].
  - rewrite nth_error_app2, Hlen, Nat.sub_diag by lia. reflexivity.
  - destruct (Nat.lt_ge_cases j i) as [Hlt|Hge].
    + rewrite nth_error_app1 by lia. rewrite nth_error_firstn.
      destruct (Nat.ltb_spec j i); [reflexivity|lia].
    + rewrite nth_error_app2, Hlen by lia.
      destruct (j - i) as [|n] eqn:Hn; [lia|]. cbn [nth_error].
      rewrite nth_error_skipn. f_equal. lia.
Qed.

Lemma replace_block_length (i : nat) (b : Block) (c : list Block) :
  i < List.length c -> List.length (replace_block i b c) = List.length c.
Proof.
  intros Hi. unfold replace_block. rewrite length_app, length_firstn. cbn [List.length].
  rewrite length_skipn. lia.
Qed.

(** X20. Tamper detection. In a ledger that [is_chain_valid] accepts,
    let a block of index [i >= 1] be replaced by a block that keeps its
    stored hash while its fields hash to something else. Then
    [is_chain_valid] answers [False], and the line it prints is the
    invalid-hash line of block [i]. *)
Theorem tampering_is_detected (self : Blockchain) (i : nat) (b b' : Block) :
  is_chain_valid self = Return true ->
  1 <= i ->
  nth_error (chain self) i = Some b ->
  hash b' = hash b ->
  block.calculate_hash b' <> block.calculate_hash b ->
  is_chain_valid_io (set_chain self (replace_block i b' (chain self)))
  = Return (false, [invalid_hash_msg i]) /\
  is_chain_valid (set_chain self (replace_block i b' (chain self))) = Return false.
Proof.
  intros Hvalid Hi Hb Hhash Hfields.
  assert (Hlt : i < List.length (chain self)) by (apply nth_error_Some; congruence).
  pose proof (proj1 (is_chain_valid_iff_passes self) Hvalid) as Hall.
  set (self' := set_chain self (replace_block i b' (chain self))).
  assert (Hio : is_chain_valid_io self' = Return (false, [invalid_hash_msg i])).
  { unfold is_chain_valid_io, range.
    assert (Hlen : List.length (chain self') = List.length (chain self))
      by (now apply replace_block_length).
    rewrite Hlen.
    replace (List.length (chain self) - 1)
      with ((i - 1) + S (List.length (chain self) - 1 - i)) by lia.
    rewrite seq_app, is_chain_valid_loop_app.
    - replace (1 + (i - 1)) with i by lia.
      cbn [seq is_chain_valid_loop]. unfold getitem.
      change (chain self') with (replace_block i b' (chain self)).
      rewrite !replace_block_nth by assumption.
      rewrite Nat.eqb_refl. cbn [py.bind].
      destruct (Nat.eqb_spec (i - 1) i) as [?|_]; [lia|].
      destruct (nth_error (chain self) (i - 1)) as [prev|] eqn:Hprev.
      2:{ apply nth_error_None in Hprev. lia. }
      cbn [py.bind]. unfold check_block.
      assert (Hstored : hash b = block.calculate_hash b).
      { destruct (Hall i ltac:(unfold in_range; lia) b prev Hb Hprev) as (Ha & _).
        exact Ha. }
      destruct (String.eqb_spec (hash b') (block.calculate_hash b')) as [Heq|_];
        [|reflexivity].
      exfalso. apply Hfields. congruence.
    - apply is_chain_valid_loop_pass.
      + apply Forall_forall. intros j Hj. apply in_seq in Hj.
        unfold in_range. rewrite Hlen. lia.
      + apply Forall_forall. intros j Hj. apply in_seq in Hj.
        intros cur prev Hc Hp.
        change (chain self') with (replace_block i b' (chain self)) in Hc, Hp.
        rewrite replace_block_nth in Hc, Hp by assumption.
        destruct (Nat.eqb_spec j i) as [?|_]; [lia|].
        destruct (Nat.eqb_spec (j - 1) i) as [?|_]; [lia|].
        apply (Hall j); [unfold in_range; lia|assumption..]. }
  split; [exact Hio|]. unfold is_chain_valid. now rewrite Hio.
Qed.

(** X21. In a ledger the code built every block, block 0 included
    (which [is_chain_valid] never looks at), stores the hash of its own
    fields, and that hash has at least [difficulty] leading zeros. *)
Theorem built_ledger_blocks_are_mined (ok : Transaction -> Prop) (self : Blockchain) :
  built ok self ->
  Forall (fun b => hash_ok b /\ work_ok (difficulty self) b) (chain self).
Proof.
  induction 1 as [fuel now d r self Hinit
                 |tx self Hbuilt IH Hok
                 |fuel now address self self' Hbuilt IH Hmine].
  - destruct (init_genesis _ _ _ _ _ Hinit) as (g & -> & _ & _ & _ & _ & Hh & Hz).
    cbn [chain difficulty]. constructor; [|constructor]. now split.
  - destruct (add_transaction_cases tx self) as [[_ ->]|[_ ->]]; exact IH.
  - destruct (mine_pending_transactions_inv _ _ _ _ _ _ Hmine)
      as (l & latest & blk & _ & Hblk & _ & ->).
    cbn [chain difficulty]. apply Forall_app. split; [exact IH|].
    constructor; [|constructor].
    apply mine_block_inv in Hblk; [|reflexivity].
    destruct Hblk as (k & -> & Hmined & _).
    split; [reflexivity|]. unfold work_ok. now apply mined_leading_zeros.
Qed.

End properties.

(* ================================================================== *)
(** * Signing *)
(* ================================================================== *)

Section signing.
Context `{Externals} `{wallet.Keys}.
Import transaction block blockchain node wallet.

(** What is used of ECDSA: a signature made with a private key is not
    empty and verifies under the public key of that private key. *)
Definition sign_then_verify : Prop :=
  forall sk m e sig pk,
    ecdsa_sign sk m e = Some sig ->
    verifying_key_hex sk = Some pk ->
    sig <> EmptyString /\ ecdsa_verify pk sig m = Verified.

Lemma sign_transaction_fields (private_key : string) (entropy : nat)
      (tx tx' : Transaction) :
  sign_transaction private_key entropy tx = Some tx' ->
  sender tx' = sender tx /\ recipient tx' = recipient tx /\ amount tx' = amount tx /\
  transaction.calculate_hash tx' = transaction.calculate_hash tx.
Proof.
  unfold sign_transaction. destruct (sender tx =? COINBASE)%string.
  - intros [= <-]. auto.
  - destruct (ecdsa_sign _ _ _); [|discriminate]. intros [= <-]. auto.
Qed.

Lemma sign_transaction_valid (private_key : string) (entropy : nat)
      (tx tx' : Transaction) :
  sign_then_verify ->
  verifying_key_hex private_key = Some (sender tx) ->
  sign_transaction private_key entropy tx = Some tx' ->
  is_valid tx' = true.
Proof.
  intros Hlaw Hkey. unfold sign_transaction, is_valid.
  destruct (sender tx =? COINBASE)%string eqn:Hcb.
  - intros [= <-]. now rewrite Hcb.
  - destruct (ecdsa_sign private_key (transaction.calculate_hash tx) entropy)
      as [sig|] eqn:Hsig; [|discriminate].
    intros [= <-]. cbn [sender signature set_signature]. rewrite Hcb.
    destruct (Hlaw _ _ _ _ _ Hsig Hkey) as [Hne Hok].
    rewrite (falsy_false _ Hne).
    change (transaction.calculate_hash (set_signature tx (Some sig)))
      with (transaction.calculate_hash tx).
    now rewrite Hok.
Qed.

(** X17. [sign_transaction] does nothing to a transaction of
    [COINBASE], whatever the key, malformed or not. A transaction it
    returns differs from the one it was given in the signature at most
    and has the same content hash; signing again therefore signs the
    same hash. If signing makes signatures that verify, a transaction
    signed with the private key of its sender passes [is_valid]. *)
Theorem sign_transaction_spec (private_key : string) (entropy : nat) (tx : Transaction) :
  (sender tx = COINBASE -> sign_transaction private_key entropy tx = Some tx) /\
  (sender tx <> COINBASE ->
   sign_transaction private_key entropy tx
   = option_map (fun sig => set_signature tx (Some sig))
                (ecdsa_sign private_key (transaction.calculate_hash tx) entropy)) /\
  (forall tx',
      sign_transaction private_key entropy tx = Some tx' ->
      sender tx' = sender tx /\ recipient tx' = recipient tx /\ amount tx' = amount tx /\
      transaction.calculate_hash tx' = transaction.calculate_hash tx /\
      (sign_then_verify ->
       verifying_key_hex private_key = Some (sender tx) ->
       is_valid tx' = true)).
Proof.
  split; [|split].
  - intros Hcb. unfold sign_transaction. now rewrite Hcb.
  - intros Hcb. apply String.eqb_neq in Hcb. unfold sign_transaction. rewrite Hcb.
    now destruct (ecdsa_sign _ _ _).
  - intros tx' Hsign.
    destruct (sign_transaction_fields _ _ _ _ Hsign) as (Hs & Hr & Ha & Hh).
    repeat split; try assumption.
    intros Hlaw Hkey. now apply (sign_transaction_valid private_key entropy tx).
Qed.


End signing.

(* ================================================================== *)
(** * The statements at work on the sample data *)
(* ================================================================== *)

Section examples.
Import transaction block blockchain node.
Import demo.
Existing Instance demo.externals.

(** Mining [fresh_block] at difficulty 4 stops at nonce 2; nonce 1
    gives a hash without four leading zeros. *)
Lemma mine_block_postcondition_witness :
  hash fresh_block = block.calculate_hash fresh_block /\
  mine_block 10 4 fresh_block = Return mined_block /\
  nonce fresh_block = 0%Z /\
  nonce mined_block = 2%Z /\
  hash mined_block = block.calculate_hash mined_block /\
  (4 <= Z.of_nat (leading_zeros (hash mined_block)))%Z /\
  ~ (4 <= Z.of_nat (leading_zeros (block.calculate_hash (with_nonce fresh_block 1))))%Z.
Proof.
  assert (Hstored : hash fresh_block = block.calculate_hash fresh_block)
    by (vm_compute; reflexivity).
  assert (Hrun : mine_block 10 4 fresh_block = Return mined_block)
    by (vm_compute; reflexivity).
  destruct (mine_block_postcondition 4 10 fresh_block mined_block Hstored Hrun)
    as (Hhash & Hzeros & _ & Hleast & _).
  split; [exact Hstored|]. split; [exact Hrun|]. split; [reflexivity|].
  split; [reflexivity|]. split; [exact Hhash|]. split; [exact Hzeros|].
  apply Hleast. cbn. lia.
Defined.

(** The three-block sample ledger is valid, so its blocks 1 and 2 pass
    the four checks. With the amounts of block 1 rewritten, block 1 is
    the first to fail, on check (a), and the answer is [false] with
    the line of that check. *)
Lemma is_chain_valid_spec_witness :
  is_chain_valid demo.ledger3 = Return true /\
  passes_at demo.ledger3 1 /\
  passes_at demo.ledger3 2 /\
  in_range demo.tampered3 1 /\
  ~ passes_at demo.tampered3 1 /\
  is_chain_valid_io demo.tampered3 = Return (false, [invalid_hash_msg 1]).
Proof.
  assert (Hvalid : is_chain_valid demo.ledger3 = Return true)
    by (vm_compute; reflexivity).
  destruct (is_chain_valid_spec demo.ledger3) as (_ & Hiff & _).
  pose proof (proj1 Hiff Hvalid) as Hall.
  split; [exact Hvalid|]. split; [apply Hall; lia|]. split; [apply Hall; lia|].
  assert (Hrange : in_range demo.tampered3 1) by (unfold in_range; cbn; lia).
  assert (Hfail : ~ passes_at demo.tampered3 1).
  { intros Hpass.
    destruct (Hpass _ _ eq_refl eq_refl) as (Hhash & _).
    vm_compute in Hhash. discriminate. }
  split; [exact Hrange|]. split; [exact Hfail|].
  destruct (is_chain_valid_spec demo.tampered3) as (_ & _ & Hfirst).
  destruct (Hfirst 1 Hrange ltac:(intros j Hj; lia) Hfail)
    as (cur & prev & line & Hcur & Hprev & Hline & Hlater).
  cbn in Hcur. injection Hcur as <-.
  specialize (Hlater (skipn 2 (chain demo.tampered3))).
  inversion Hline as [Hno|Hyes _|Hyes _ _|Hyes _ _ _]; subst line.
  - exact Hlater.
  - vm_compute in Hyes. discriminate.
  - vm_compute in Hyes. discriminate.
  - vm_compute in Hyes. discriminate.
Defined.

(** A forged block 0 is accepted alone, and accepted in place of the
    genuine block 0 of the three-block ledger. *)
Lemma genesis_block_is_not_verified_witness :
  hash forged_genesis <> block.calculate_hash forged_genesis /\
  is_valid (transaction.from_dict (mk_tx_dict "zz" "zz" (-1) None)) = false /\
  is_chain_valid (mkBlockchain [forged_genesis] 4 [] 50) = Return true /\
  is_chain_valid (set_chain demo.ledger3 (forged_genesis :: tl (chain demo.ledger3)))
  = Return true.
Proof.
  destruct genesis_block_is_not_verified as [Hone Hswap].
  split; [vm_compute; discriminate|]. split; [vm_compute; reflexivity|].
  split; [apply Hone|].
  assert (Hvalid : is_chain_valid demo.ledger3 = Return true)
    by (vm_compute; reflexivity).
  rewrite <- Hvalid. symmetry.
  refine (proj2 (Hswap (hd forged_genesis (chain demo.ledger3)) forged_genesis
                       (tl (chain demo.ledger3)) 4%Z [] 50%Q _)).
  vm_compute; reflexivity.
Defined.

(** The reward with a signature that is none is valid and admitted
    although [COINBASE] owns nothing; the unsigned transfer and the one
    whose sender cannot be decoded are invalid. *)
Lemma coinbase_exemption_witness :
  is_valid minted = true /\
  (get_balance demo.ledger1 COINBASE < amount minted)%Q /\
  add_transaction minted demo.ledger1 =
  (true, set_pending_transactions demo.ledger1 [minted]) /\
  is_valid unsigned = false /\
  ecdsa_verify (sender undecodable) "00" (transaction.calculate_hash undecodable)
  = OtherException /\
  is_valid undecodable = false.
Proof.
  destruct (coinbase_exemption minted) as [Hcoinbase _].
  destruct (Hcoinbase eq_refl) as [Hvalid Hadmit].
  destruct (coinbase_exemption unsigned) as [_ Hunsigned].
  destruct (Hunsigned ltac:(discriminate)) as [Habsent _].
  destruct (coinbase_exemption undecodable) as [_ Hundecodable].
  destruct (Hundecodable ltac:(discriminate)) as [_ Herror].
  split; [exact Hvalid|]. split; [reflexivity|].
  split; [apply (Hadmit demo.ledger1); discriminate|].
  split; [apply Habsent; reflexivity|].
  split; [reflexivity|].
  apply (Herror "00"%string eq_refl). discriminate.
Defined.






(** Mining the pool of [pooled] for ["m1"]: the block appended holds
    the reward, then the transfer; nothing is returned. *)
Lemma mine_pending_transactions_spec_witness :
  get_latest_block pooled = Return last_of_pooled /\
  mine_pending_transactions 10 9 "m1" pooled = (Return None, pooled_mined) /\
  chain pooled_mined = chain pooled ++ [new_block] /\
  pending_transactions pooled_mined = [] /\
  transactions new_block =
  [transaction.to_dict (mkTransaction COINBASE "m1" 50 None);
   transaction.to_dict first_spend] /\
  index new_block = 3%Z /\
  previous_hash new_block = hash last_of_pooled /\
  hash new_block = block.calculate_hash new_block /\
  (4 <= Z.of_nat (leading_zeros (hash new_block)))%Z.
Proof.
  assert (Hlatest : get_latest_block pooled = Return last_of_pooled)
    by (vm_compute; reflexivity).
  assert (Hmine :
            mine_block 10 (difficulty pooled)
              (block.init (Z.of_nat (List.length (chain pooled)))
                          (batch pooled "m1") 9 (hash last_of_pooled) 0)
            = Return new_block)
    by (vm_compute; reflexivity).
  destruct (mine_pending_transactions_spec 10 9 "m1" pooled) as [_ Hspec].
  destruct (Hspec last_of_pooled new_block Hlatest Hmine)
    as (Hrun & _ & Htxs & Hindex & Hprev & _ & Hhash & Hzeros).
  split; [exact Hlatest|]. split; [exact Hrun|]. split; [reflexivity|].
  split; [reflexivity|]. split; [exact Htxs|]. split; [exact Hindex|].
  split; [exact Hprev|]. split; [exact Hhash|exact Hzeros].
Defined.

(** The call hands back [None], not the block it has just appended. *)
Lemma mine_pending_transactions_returns_nothing :
  fst (mine_pending_transactions 10 9 "m1" pooled) = Return None /\
  get_latest_block (snd (mine_pending_transactions 10 9 "m1" pooled))
  = Return new_block /\
  fst (mine_pending_transactions 10 9 "m1" pooled) <> Return (Some new_block).
Proof.
  split; [vm_compute; reflexivity|]. split; [vm_compute; reflexivity|].
  vm_compute. discriminate.
Qed.


(** The pool of the node survives the replacement of its chain. *)
Example resolve_conflicts_keeps_the_pool :
  let self := set_blockchain demo.node3 pooled in
  fst (resolve_conflicts 10 demo.network self) = Return true /\
  pending_transactions (blockchain (snd (resolve_conflicts 10 demo.network self)))
  = [first_spend].
Proof. split; vm_compute; reflexivity. Qed.

(** ** The further statements at work *)

(** [pooled] is built by the code: the constructor, two blocks mined, the
    transfer admitted. *)
Lemma pooled_built : built nonnegative_amount pooled.
Proof.
  assert (H1 : built nonnegative_amount ledger1).
  { apply (built_init nonnegative_amount 10 1 4 50). vm_compute. reflexivity. }
  assert (H2 : built nonnegative_amount ledger2).
  { apply (built_mine nonnegative_amount 10 2 "a1" ledger1 ledger2 H1).
    vm_compute. reflexivity. }
  assert (H3 : built nonnegative_amount ledger3).
  { apply (built_mine nonnegative_amount 10 3 "a1" ledger2 ledger3 H2).
    vm_compute. reflexivity. }
  change pooled with (snd (add_transaction first_spend ledger3)).
  apply (built_add nonnegative_amount first_spend ledger3 H3).
  unfold nonnegative_amount. vm_compute. discriminate.
Defined.

(** The built sample ledger is valid and its pool holds a valid
    transfer. *)
Lemma built_ledger_is_valid_witness :
  built nonnegative_amount pooled /\
  is_chain_valid pooled = Return true /\
  is_valid first_spend = true.
Proof.
  destruct (built_ledger_is_valid nonnegative_amount pooled pooled_built)
    as (Hvalid & _ & _ & Hpool & _).
  split; [exact pooled_built|]. split; [exact Hvalid|].
  inversion Hpool as [|tx l Htx _]. exact Htx.
Defined.

(** Its block 2 carries the index 2 and starts with the reward. *)
Lemma built_ledger_shape_witness :
  built nonnegative_amount pooled /\
  nth_error (chain pooled) 2 = Some last_of_pooled /\
  index last_of_pooled = 2%Z /\
  exists first rest,
    transactions last_of_pooled = first :: rest /\ is_reward 50 first.
Proof.
  destruct (built_ledger_shape nonnegative_amount pooled pooled_built 2 last_of_pooled
                               eq_refl) as [Hindex Hfirst].
  split; [exact pooled_built|]. split; [reflexivity|]. split; [exact Hindex|exact Hfirst].
Defined.




(** A transfer of 30 by ["a1"], who owns 100, is admitted twice in a
    row. *)
Lemma admitted_transaction_can_be_replayed_witness :
  fst (add_transaction small_spend ledger3) = true /\
  add_transaction small_spend (snd (add_transaction small_spend ledger3))
  = (true, set_pending_transactions ledger3 [small_spend; small_spend]).
Proof.
  assert (Hfirst : fst (add_transaction small_spend ledger3) = true)
    by (vm_compute; reflexivity).
  split; [exact Hfirst|].
  apply (admitted_transaction_can_be_replayed small_spend ledger3 Hfirst).
  right. vm_compute. discriminate.
Defined.

(** Mining [fresh_block] at difficulty 4 returns, nonce 2 passing the
    guard; at difficulty 65 it never does, and at difficulty 0 the block
    comes back as it is. *)
Lemma mine_block_returns_iff_witness :
  hash fresh_block = block.calculate_hash fresh_block /\
  mined 4 (with_nonce fresh_block 2) = true /\
  exists fuel b', mine_block fuel 4 fresh_block = Return b'.
Proof.
  assert (Hstored : hash fresh_block = block.calculate_hash fresh_block)
    by (vm_compute; reflexivity).
  assert (Hmined : mined 4 (with_nonce fresh_block 2) = true)
    by (vm_compute; reflexivity).
  destruct (mine_block_returns_iff 4 fresh_block Hstored) as [Hiff _].
  split; [exact Hstored|]. split; [exact Hmined|].
  apply Hiff. exists 2%Z. split; [cbn; lia|exact Hmined].
Defined.

Lemma mine_block_out_of_range_witness :
  String.length (hash fresh_block) = 64 /\
  mine_block 1000 65 fresh_block = OutOfFuel /\
  blockchain.init 1000 1 (-1) 50 = OutOfFuel /\
  mine_block 1000 0 fresh_block = Return fresh_block.
Proof.
  assert (Hlen : String.length (hash fresh_block) = 64) by reflexivity.
  destruct (mine_block_out_of_range 65 fresh_block Hlen) as [Hhigh _].
  destruct (mine_block_out_of_range (-1) fresh_block Hlen) as [Hneg _].
  destruct (mine_block_out_of_range 0 fresh_block Hlen) as [_ Hzero].
  split; [exact Hlen|].
  split; [apply (Hhigh ltac:(lia))|].
  split; [apply (Hneg ltac:(lia))|apply (Hzero ltac:(lia))].
Defined.

(** After the run that installed the chain of four blocks, a second run
    on the same answers changes nothing. *)
Lemma resolve_conflicts_settles_witness :
  resolve_conflicts 10 network node3 = (Return true, set_blockchain node3 ledger4) /\
  resolve_conflicts 10 network (set_blockchain node3 ledger4)
  = (Return false, set_blockchain node3 ledger4).
Proof.
  assert (Hrun : resolve_conflicts 10 network node3
                 = (Return true, set_blockchain node3 ledger4))
    by (vm_compute; reflexivity).
  split; [exact Hrun|].
  exact (proj1 (resolve_conflicts_settles 10 network node3 _ true Hrun)).
Defined.

(** Visiting the peers in the opposite order gives the same answer and
    a chain of the same length. *)
Lemma resolve_conflicts_order_witness :
  fst (resolve_conflicts 10 network node3_reversed) = Return true /\
  List.length (chain (blockchain (snd (resolve_conflicts 10 network node3_reversed))))
  = List.length (chain ledger4).
Proof.
  assert (Hrun : resolve_conflicts 10 network node3
                 = (Return true, set_blockchain node3 ledger4))
    by (vm_compute; reflexivity).
  assert (Hrun' : resolve_conflicts 10 network node3_reversed
                  = (Return true, snd (resolve_conflicts 10 network node3_reversed)))
    by (vm_compute; reflexivity).
  assert (Hpeers : forall p, In p (peers node3) <-> In p (peers node3_reversed)).
  { intros p. apply in_rev. }
  destruct (resolve_conflicts_order 10 network node3 node3_reversed _ _ true true
                                    eq_refl Hpeers Hrun Hrun') as [_ Hlen].
  split; [now rewrite Hrun'|]. rewrite <- Hlen. reflexivity.
Defined.

(** The chain installed in [node3], whose ledger has difficulty 4, is
    valid for [node3]. *)
Lemma resolve_conflicts_installs_valid_chain_witness :
  (difficulty (blockchain node3) <= 4)%Z /\
  resolve_conflicts 10 network node3 = (Return true, set_blockchain node3 ledger4) /\
  is_chain_valid (blockchain (set_blockchain node3 ledger4)) = Return true.
Proof.
  assert (Hd : (difficulty (blockchain node3) <= 4)%Z) by (cbn; lia).
  assert (Hrun : resolve_conflicts 10 network node3
                 = (Return true, set_blockchain node3 ledger4))
    by (vm_compute; reflexivity).
  split; [exact Hd|]. split; [exact Hrun|].
  exact (resolve_conflicts_installs_valid_chain 10 network node3 _ Hd Hrun).
Defined.

(** [GET /consensus] on [node3] says that the chain was replaced. *)
Lemma consensus_route_witness :
  api.consensus 10 network node3
  = (Return (api.ChainReply 200 "Chain was replaced" (blockchain.to_dict ledger4)),
     set_blockchain node3 ledger4) /\
  List.length (chain (blockchain node3))
  < List.length (chain (blockchain (set_blockchain node3 ledger4))).
Proof.
  assert (Hrun : api.consensus 10 network node3
                 = (Return (api.ChainReply 200 "Chain was replaced"
                                           (blockchain.to_dict ledger4)),
                    set_blockchain node3 ledger4))
    by (vm_compute; reflexivity).
  destruct (consensus_route 10 network node3 _ _ Hrun)
    as (message & Hreply & _ & Hiff & _).
  injection Hreply as <-.
  split; [exact Hrun|]. apply Hiff. reflexivity.
Defined.



(** Rewriting the amounts of block 1 of the valid [ledger3] is detected
    at block 1. *)
Lemma tampering_is_detected_witness :
  is_chain_valid ledger3 = Return true /\
  nth_error (chain ledger3) 1 = Some (nth 1 (chain ledger3) fresh_block) /\
  hash tampered_block = hash (nth 1 (chain ledger3) fresh_block) /\
  set_chain ledger3 (replace_block 1 tampered_block (chain ledger3)) = tampered3 /\
  is_chain_valid_io tampered3 = Return (false, [invalid_hash_msg 1]).
Proof.
  assert (Hvalid : is_chain_valid ledger3 = Return true) by (vm_compute; reflexivity).
  assert (Hsame : set_chain ledger3 (replace_block 1 tampered_block (chain ledger3))
                  = tampered3) by reflexivity.
  destruct (tampering_is_detected ledger3 1 (nth 1 (chain ledger3) fresh_block)
                                  tampered_block Hvalid (le_n 1) eq_refl eq_refl)
    as [Hio _].
  { vm_compute. discriminate. }
  split; [exact Hvalid|]. split; [reflexivity|]. split; [reflexivity|].
  split; [exact Hsame|]. rewrite <- Hsame. exact Hio.
Defined.

(** Block 0 of the built sample ledger stores the hash of its fields,
    with four leading zeros. *)
Lemma built_ledger_blocks_are_mined_witness :
  built nonnegative_amount pooled /\
  hash_ok (nth 0 (chain pooled) fresh_block) /\
  work_ok 4 (nth 0 (chain pooled) fresh_block).
Proof.
  pose proof (built_ledger_blocks_are_mined nonnegative_amount pooled pooled_built)
    as Hall.
  split; [exact pooled_built|].
  rewrite Forall_forall in Hall.
  apply (Hall (nth 0 (chain pooled) fresh_block)). left. reflexivity.
Defined.

End examples.
